(** * README aggregator ([scripts/update-readme.js])

    A shallow embedding of [updateReadme] and of the JavaScript string and
    regular-expression operations it relies on, followed by the properties
    of the script that the specification talks about.

    Modelling conventions
    - A JavaScript string is the list of its UTF-16 code units ([N]).
      A file read or written with the ["utf-8"] encoding is identified with
      the string it decodes to.
    - The file system is reduced to what the script touches: the file at
      [readmePath], the entries of [projectDir] and, for each entry, what
      sits at [<entry>/README.md].
    - [throw] and failing [fs] calls are results in an error monad; the
      local arrays are threaded through the [forEach] loop as state. *)

From Stdlib Require Import List NArith ZArith Lia Bool Ascii String.
Import ListNotations.

Set Implicit Arguments.

Abbreviation length := Datatypes.length (only parsing).

(* ================================================================== *)
(** ** JavaScript strings *)

Module Js.

Definition code_unit := N.
Definition jsstring := list code_unit.

(** An ASCII literal as a JavaScript string. *)
Definition lit (s : string) : jsstring :=
  map N_of_ascii (list_ascii_of_string s).
Arguments lit s%_string.

Definition LF : code_unit := 10%N.       (* "\n" *)
Definition QUOT : code_unit := 34%N.     (* the double quote *)
Definition SPACE : code_unit := 32%N.
Definition HASH : code_unit := 35%N.     (* "#" *)
Definition LT : code_unit := 60%N.       (* "<" *)
Definition GLYPH : code_unit := 10057%N. (* U+2749, the link bullet *)

(** [WhiteSpace] and [LineTerminator] code units: what [\s] matches and
    what [String.prototype.trim] strips. *)
Definition isSpace (c : code_unit) : bool :=
  ((9 <=? c) && (c <=? 13) || (c =? 32) || (c =? 160) || (c =? 5760)
   || (8192 <=? c) && (c <=? 8202) || (c =? 8232) || (c =? 8233)
   || (c =? 8239) || (c =? 8287) || (c =? 12288) || (c =? 65279))%N.

(** [p] is a prefix of [s]. *)
Fixpoint startsWith (p s : jsstring) : bool :=
  match p, s with
  | [], _ => true
  | _ :: _, [] => false
  | a :: p', b :: s' => (a =? b)%N && startsWith p' s'
  end.

(** [s.indexOf(p)], searching from the position whose index is [i]. *)
Fixpoint indexOfFrom (p s : jsstring) (i : Z) : Z :=
  match s with
  | [] => if startsWith p [] then i else (-1)%Z
  | _ :: s' => if startsWith p s then i else indexOfFrom p s' (i + 1)%Z
  end.

Definition indexOf (s p : jsstring) : Z := indexOfFrom p s 0%Z.

(** [s.includes(p)]. *)
Fixpoint includes (s p : jsstring) : bool :=
  startsWith p s ||
  match s with
  | [] => false
  | _ :: s' => includes s' p
  end.

(** [s.slice(0, e)]: a negative [e] counts from the end. *)
Definition slice0 (s : jsstring) (e : Z) : jsstring :=
  let len := Z.of_nat (length s) in
  let final := if (e <? 0)%Z then Z.max (len + e) 0 else Z.min e len in
  firstn (Z.to_nat final) s.

Fixpoint dropWhile (p : code_unit -> bool) (s : jsstring) : jsstring :=
  match s with
  | [] => []
  | c :: s' => if p c then dropWhile p s' else s
  end.

Definition trimStart (s : jsstring) : jsstring := dropWhile isSpace s.
Definition trimEnd (s : jsstring) : jsstring := rev (dropWhile isSpace (rev s)).
Definition trim (s : jsstring) : jsstring := trimEnd (trimStart s).

(** [arr.join(sep)]. *)
Fixpoint join (sep : jsstring) (arr : list jsstring) : jsstring :=
  match arr with
  | [] => []
  | [x] => x
  | x :: rest => x ++ sep ++ join sep rest
  end.

(** [arr.some(f)]. *)
Definition some (A : Type) (f : A -> bool) (arr : list A) : bool := existsb f arr.

End Js.
Import Js.

(* ================================================================== *)
(** ** Regular expressions

    The fragment of ECMAScript patterns used by the script, with the
    backtracking semantics of the language: a matcher takes the rest of the
    input, the captures so far and a continuation, and tries its
    alternatives in priority order until the continuation succeeds.
    None of the patterns looks behind the current position, so the rest of
    the input is all a matcher needs. *)

Module Regex.

Inductive regex :=
| Chars (l : jsstring)                (* a run of literal characters *)
| Plus (cls : code_unit -> bool)      (* [cls+], greedy *)
| LazyStar (cls : code_unit -> bool)  (* [cls*?] *)
| Group (r : regex)                   (* a capturing group *)
| Seq (r1 r2 : regex)
| Alt (r1 r2 : regex)                 (* [r1|r2] *)
| Ahead (r : regex)                   (* [(?=r)] *)
| EndOfInput.                         (* [$], without the m flag *)

Definition captures := list jsstring.
Definition mresult := option (jsstring * captures).
Definition continuation := jsstring -> captures -> mresult.

Fixpoint stripPrefix (p s : jsstring) : option jsstring :=
  match p, s with
  | [], _ => Some s
  | _ :: _, [] => None
  | a :: p', b :: s' => if (a =? b)%N then stripPrefix p' s' else None
  end.

(** Zero or more [cls], longest first. *)
Fixpoint greedy (cls : code_unit -> bool) (s : jsstring) (caps : captures)
    (k : continuation) : mresult :=
  match s with
  | c :: s' =>
      if cls c then
        match greedy cls s' caps k with
        | Some r => Some r
        | None => k s caps
        end
      else k s caps
  | [] => k s caps
  end.

(** Zero or more [cls], shortest first. *)
Fixpoint lazy (cls : code_unit -> bool) (s : jsstring) (caps : captures)
    (k : continuation) : mresult :=
  match k s caps with
  | Some r => Some r
  | None =>
      match s with
      | c :: s' => if cls c then lazy cls s' caps k else None
      | [] => None
      end
  end.

Fixpoint matcher (r : regex) (s : jsstring) (caps : captures)
    (k : continuation) : mresult :=
  match r with
  | Chars l =>
      match stripPrefix l s with
      | Some s' => k s' caps
      | None => None
      end
  | Plus cls =>
      match s with
      | c :: s' => if cls c then greedy cls s' caps k else None
      | [] => None
      end
  | LazyStar cls => lazy cls s caps k
  | Group r1 =>
      matcher r1 s caps
        (fun s' caps' => k s' (caps' ++ [firstn (length s - length s') s]))
  | Seq r1 r2 => matcher r1 s caps (fun s' caps' => matcher r2 s' caps' k)
  | Alt r1 r2 =>
      match matcher r1 s caps k with
      | Some x => Some x
      | None => matcher r2 s caps k
      end
  | Ahead r1 =>
      match matcher r1 s caps (fun s' caps' => Some (s', caps')) with
      | Some (_, caps') => k s caps'
      | None => None
      end
  | EndOfInput =>
      match s with
      | [] => k s caps
      | _ :: _ => None
      end
  end.

(** One attempt at the current position: the captures and the length of
    the match. *)
Definition matchHere (r : regex) (s : jsstring) : option (captures * nat) :=
  match matcher r s [] (fun s' caps => Some (s', caps)) with
  | Some (s', caps) => Some (caps, length s - length s')
  | None => None
  end.

(** [while ((match = re.exec(s)) !== null) ...] for a pattern with the g
    flag: the successive matches, each search starting at [lastIndex],
    the end of the previous match.  [skip] is the distance from the current
    position to [lastIndex].  (The two patterns of the script only have
    non-empty matches, see [linksRegex_nonempty] and
    [sectionsRegex_nonempty], so [lastIndex] advances at every match.) *)
Fixpoint execAll (r : regex) (s : jsstring) (skip : nat) : list captures :=
  match s with
  | [] => []
  | _ :: s' =>
      match skip with
      | S n => execAll r s' n
      | O =>
          match matchHere r s with
          | Some (caps, len) => caps :: execAll r s' (len - 1)
          | None => execAll r s' 0
          end
      end
  end.

Definition seq (rs : list regex) : regex :=
  fold_right Seq (Chars []) rs.

End Regex.
Import Regex.

(* ================================================================== *)
(** ** The script *)

(** *** Errors and the file system *)

Inductive error :=
| PlaceholderNotFound  (* the [Error] thrown by [updateReadme] itself *)
| IoError.             (* an exception out of an [fs] call *)

Inductive result (A : Type) :=
| Ok (a : A)
| Throw (e : error).
Arguments Throw {A} e.

Definition bind {A B : Type} (x : result A) (f : A -> result B) : result B :=
  match x with
  | Ok a => f a
  | Throw e => Throw e
  end.

Notation "x <- e1 ;; e2" := (bind e1 (fun x => e2))
  (at level 61, e1 at next level, right associativity).

(** What sits at [path.join(folderPath, "README.md")]. *)
Inductive folderReadme :=
| NoReadme                         (* [existsSync] is false *)
| ReadmeFile (content : jsstring)  (* a readable file *)
| ReadmeUnreadable.                (* exists, but [readFileSync] throws *)

(** An entry of [readdirSync(projectDir, { withFileTypes: true })]. *)
Record Dirent := {
  name : jsstring;
  isDirectory : bool;
  readme : folderReadme
}.

Record FileSystem := {
  readmeFile : option jsstring;      (* the file at [readmePath] *)
  projectDir : option (list Dirent)  (* the entries of [projectDir] *)
}.

Definition readFileSync (file : option jsstring) : result jsstring :=
  match file with
  | Some content => Ok content
  | None => Throw IoError
  end.

Definition readdirSync (fs : FileSystem) : result (list Dirent) :=
  match projectDir fs with
  | Some entries => Ok entries
  | None => Throw IoError
  end.

Definition writeFileSync (fs : FileSystem) (content : jsstring) : FileSystem :=
  {| readmeFile := Some content; projectDir := projectDir fs |}.

(** *** The constants and templates of [updateReadme] *)

Definition placeholder : jsstring := lit "<!-- FOLDER LINKS -->".

Definition insertPosition (readmeContent : jsstring) : Z :=
  (indexOf readmeContent placeholder + Z.of_nat (length placeholder))%Z.

(** [<a href="./${folderName}/" style="font-weight: bold;
    margin-bottom:200px;">❉ ${folderTitle}</a></br>] *)
Definition link (folderName folderTitle : jsstring) : jsstring :=
  lit "<a href=" ++ [QUOT] ++ lit "./" ++ folderName ++ lit "/" ++ [QUOT]
  ++ lit " style=" ++ [QUOT] ++ lit "font-weight: bold; margin-bottom:200px;"
  ++ [QUOT] ++ lit ">" ++ [GLYPH] ++ lit " " ++ folderTitle
  ++ lit "</a></br>".

(** The character classes of the two patterns. *)
Definition notQuot (c : code_unit) : bool := negb (c =? QUOT)%N. (* [^\x22] *)
Definition notLt (c : code_unit) : bool := negb (c =? LT)%N.     (* [^<] *)
Definition notHash (c : code_unit) : bool := negb (c =? HASH)%N. (* [^#] *)
Definition anyChar (c : code_unit) : bool := isSpace c || negb (isSpace c).
                                                                 (* [\s\S] *)

(** The pattern of the first loop, written here with [\x22] for each
    double quote:
    [/<a\s+href=\x22\.\/([^\x22]+)\/\x22\s+style=\x22font-weight:\s+bold;\s+margin-bottom:200px;\x22>❉\s+([^<]+)<\/a><\/br>/g] *)
Definition existingLinksRegex : regex :=
  seq [ Chars (lit "<a"); Plus isSpace;
        Chars (lit "href=" ++ [QUOT] ++ lit "./");
        Group (Plus notQuot);
        Chars (lit "/" ++ [QUOT]); Plus isSpace;
        Chars (lit "style=" ++ [QUOT] ++ lit "font-weight:"); Plus isSpace;
        Chars (lit "bold;"); Plus isSpace;
        Chars (lit "margin-bottom:200px;" ++ [QUOT] ++ lit ">" ++ [GLYPH]);
        Plus isSpace;
        Group (Plus notLt);
        Chars (lit "</a></br>") ].

(** The separator line between a heading and its body, and the start of
    the next heading line. *)
Definition separator : jsstring := [LF] ++ lit "---" ++ [LF].
Definition nextHeading : jsstring := [LF] ++ lit "###".

(** [/###\s+([^#]+)\n---\n([\s\S]*?)(?=\n###|$)/g] *)
Definition existingSectionsRegex : regex :=
  seq [ Chars (lit "###"); Plus isSpace;
        Group (Plus notHash);
        Chars separator;
        Group (LazyStar anyChar);
        Ahead (Alt (Chars nextHeading) EndOfInput) ].

(** [match[i]], for [i >= 1]. *)
Definition group (i : nat) (m : captures) : jsstring := nth (i - 1) m [].

(** [`### ${title}\n---\n${content}`]: the rendering of a section read
    back from the README, and the text looked for before a section is
    added. *)
Definition sectionText (title content : jsstring) : jsstring :=
  lit "### " ++ title ++ [LF] ++ lit "---" ++ [LF] ++ content.

(** The template literal of [readmeSection]: it opens with a line break
    and ends with a line break and the indentation of its last line. *)
Definition readmeSection (dirName readmeContent : jsstring) : jsstring :=
  [LF] ++ lit "### " ++ dirName ++ [LF] ++ lit "---" ++ [LF] ++ readmeContent
  ++ [LF] ++ lit "                    ".

(** The first loop: one link per match of [existingLinksRegex]. *)
Definition existingLinks (readmeContent : jsstring) : list jsstring :=
  map (fun m => link (group 1 m) (group 2 m))
      (execAll existingLinksRegex readmeContent 0).

(** The second loop: one section per match of [existingSectionsRegex]. *)
Definition existingSections (readmeContent : jsstring) : list jsstring :=
  map (fun m => sectionText (trim (group 1 m)) (trim (group 2 m)))
      (execAll existingSectionsRegex readmeContent 0).

(** [path.relative(projectDir, path.join(projectDir, dirName))]: for the
    name of a directory entry, a single path segment other than [.] and
    [..], Node's [path] gives the name back. *)
Definition relativePath (dirName : jsstring) : jsstring := dirName.

(** *** The body of the [forEach] callback *)

Definition linked (folderLinks : list jsstring) (dirName : jsstring) : bool :=
  some (fun l => includes l (lit "./" ++ dirName ++ lit "/")) folderLinks.

Definition recorded (readmeSections : list jsstring)
    (dirName readmeContent : jsstring) : bool :=
  some (fun section => includes section (sectionText dirName readmeContent))
       readmeSections.

(** The first block of the callback: the link of the directory. *)
Definition addLink (folderLinks : list jsstring) (dirName : jsstring)
    : list jsstring :=
  if negb (linked folderLinks dirName)
  then folderLinks ++ [link (relativePath dirName) dirName]
  else folderLinks.

(** The second block: the section made of the directory's README.md. *)
Definition addSection (readmeSections : list jsstring) (dirName : jsstring)
    (file : folderReadme) : result (list jsstring) :=
  match file with
  | NoReadme => Ok readmeSections
  | ReadmeUnreadable => Throw IoError
  | ReadmeFile content =>
      let readmeContent := trim content in
      if negb (recorded readmeSections dirName readmeContent)
      then Ok (readmeSections ++ [readmeSection dirName readmeContent])
      else Ok readmeSections
  end.

Definition visit (st : list jsstring * list jsstring) (dirent : Dirent)
    : result (list jsstring * list jsstring) :=
  if isDirectory dirent then
    let dirName := name dirent in
    let folderLinks := addLink (fst st) dirName in
    readmeSections <- addSection (snd st) dirName (readme dirent) ;;
    Ok (folderLinks, readmeSections)
  else Ok st.

Fixpoint forEach (entries : list Dirent) (st : list jsstring * list jsstring)
    : result (list jsstring * list jsstring) :=
  match entries with
  | [] => Ok st
  | dirent :: rest => st' <- visit st dirent ;; forEach rest st'
  end.

(** *** [updateReadme] *)

Definition updatedContent (readmeContent : jsstring)
    (folderLinks readmeSections : list jsstring) : jsstring :=
  slice0 readmeContent (insertPosition readmeContent)
  ++ [LF] ++ join [LF] folderLinks ++ [LF] ++ join [LF] readmeSections.

Definition updateReadme (fs : FileSystem) : result FileSystem :=
  readmeContent <- readFileSync (readmeFile fs) ;;
  if (insertPosition readmeContent =? -1)%Z then Throw PlaceholderNotFound
  else
    let folderLinks := existingLinks readmeContent in
    let readmeSections := existingSections readmeContent in
    entries <- readdirSync fs ;;
    st <- forEach entries (folderLinks, readmeSections) ;;
    Ok (writeFileSync fs (updatedContent readmeContent (fst st) (snd st))).


(* ================================================================== *)
(** ** The vocabulary of the statements

    Predicates and sample data used to state the properties; none of them
    is part of the script. *)

(** The rest [r] of the input does not start with a [cls] character. *)
Definition stops (cls : code_unit -> bool) (r : jsstring) : Prop :=
  match r with
  | [] => True
  | c :: _ => cls c = false
  end.

(** A non-empty run of white space. *)
Definition spaces (w : jsstring) : Prop := w <> [] /\ forallb isSpace w = true.

(** The lookahead [(?=\n###|$)]: the position is the end of the input or
    the line break before a heading. *)
Definition atBoundary (s : jsstring) : bool :=
  startsWith nextHeading s || match s with [] => true | _ :: _ => false end.

(** The text [X] before a heading ends a line, and that line is not a
    separator line: the heading then starts a line of its own and is not
    the first line of another section's body. *)
Definition lineStart (X : jsstring) : Prop :=
  X = [] \/ ((exists X', X = X' ++ [LF]) /\ forall Y, X <> Y ++ separator).

(** An anchor as the pattern accepts it: runs of white space [w1] ...
    [w5] where the template of [link] has one space. *)
Definition anchor (w1 folderName w2 w3 w4 w5 folderTitle : jsstring)
    : jsstring :=
  lit "<a" ++ w1 ++ lit "href=" ++ [QUOT] ++ lit "./" ++ folderName
  ++ lit "/" ++ [QUOT] ++ w2 ++ lit "style=" ++ [QUOT] ++ lit "font-weight:"
  ++ w3 ++ lit "bold;" ++ w4 ++ lit "margin-bottom:200px;" ++ [QUOT]
  ++ lit ">" ++ [GLYPH] ++ w5 ++ folderTitle ++ lit "</a></br>".

(** A directory name that the links pattern reads back from the link
    made for it: not empty, without double quote or [<], not starting with
    white space. *)
Definition plainName (d : jsstring) : Prop :=
  d <> [] /\ forallb notQuot d = true /\ forallb notLt d = true /\
  stops isSpace d.

(** The names of the directories among the entries, in enumeration
    order. *)
Definition directories (entries : list Dirent) : list jsstring :=
  map name (filter isDirectory entries).

(** No directory holds a README.md that cannot be read. *)
Definition readable (entries : list Dirent) : Prop :=
  forall e, In e entries -> isDirectory e = true -> readme e <> ReadmeUnreadable.

(** [l1] is [l2] with some elements left out. *)
Inductive subsequence (A : Type) : list A -> list A -> Prop :=
| sub_nil : subsequence [] []
| sub_skip x l1 l2 : subsequence l1 l2 -> subsequence l1 (x :: l2)
| sub_take x l1 l2 : subsequence l1 l2 -> subsequence (x :: l1) (x :: l2).

(** The body that the pattern finds under the heading of a section
    written by the template: the content, the indentation, and one more
    line break when another section follows. *)
Definition templateBody (content : jsstring) (last : bool) : jsstring :=
  content ++ [LF] ++ lit "                    "
  ++ if last then [] else [LF].

(** A directory entry and a project tree with its root README. *)
Definition dir (dirName : jsstring) (file : folderReadme) : Dirent :=
  {| name := dirName; isDirectory := true; readme := file |}.

Definition project (readmeContent : jsstring) (entries : list Dirent)
    : FileSystem :=
  {| readmeFile := Some readmeContent; projectDir := Some entries |}.

(** The README of the repository, cut down to the lines that matter: a
    title, the heading and separator line above the marker, and one link
    in the older format below it. *)
Definition sampleReadme : jsstring :=
  lit "# daily-learning" ++ [LF] ++ [LF]
  ++ lit "### Table of Contents" ++ [LF] ++ lit "---" ++ [LF]
  ++ placeholder ++ [LF]
  ++ lit "- <a href=" ++ [QUOT] ++ lit "./javaScript/" ++ [QUOT]
  ++ lit " >javaScript</a></br>".

(** A link and a section given by their two parts, as the two loops
    over the matches render them. *)
Definition linkOf (p : jsstring * jsstring) : jsstring :=
  link (fst p) (snd p).

Definition sectionOf (p : jsstring * jsstring) : jsstring :=
  sectionText (fst p) (snd p).

(** The parts of a link that the links pattern reads back as they are:
    a directory name without double quote, a title without [<] that does
    not start with white space. *)
Definition plainLink (p : jsstring * jsstring) : Prop :=
  fst p <> [] /\ forallb notQuot (fst p) = true /\
  snd p <> [] /\ forallb notLt (snd p) = true /\ stops isSpace (snd p).

(** The parts of a section that the sections pattern reads back as they
    are: a trimmed title without [#], a trimmed body that holds neither a
    heading line nor a separator line. *)
Definition plainSection (p : jsstring * jsstring) : Prop :=
  fst p <> [] /\ forallb notHash (fst p) = true /\ trim (fst p) = fst p /\
  trim (snd p) = snd p /\
  includes (snd p) nextHeading = false /\
  includes ([LF] ++ snd p ++ [LF]) separator = false.

(* ================================================================== *)
(** ** Facts about the string operations *)

Section StringFacts.

Lemma startsWith_app (p s : jsstring) : startsWith p (p ++ s) = true.
Proof.
  induction p as [|a p IH]; simpl; [reflexivity|].
  now rewrite N.eqb_refl, IH.
Qed.

Lemma startsWith_inv (p s : jsstring) :
  startsWith p s = true -> exists t, s = p ++ t.
Proof.
  revert s; induction p as [|a p IH]; intros s H.
  - now exists s.
  - destruct s as [|b s]; simpl in H; [discriminate|].
    apply andb_true_iff in H as [E H]. apply N.eqb_eq in E. subst b.
    destruct (IH _ H) as [t ->]. now exists t.
Qed.

Lemma stripPrefix_app (p s : jsstring) : stripPrefix p (p ++ s) = Some s.
Proof.
  induction p as [|a p IH]; simpl; [reflexivity|].
  now rewrite N.eqb_refl.
Qed.

Lemma stripPrefix_inv (p s t : jsstring) :
  stripPrefix p s = Some t -> s = p ++ t.
Proof.
  revert s; induction p as [|a p IH]; intros s H; simpl in H.
  - now inversion H.
  - destruct s as [|b s]; [discriminate|].
    destruct (N.eqb_spec a b); [|discriminate].
    subst b. simpl. f_equal. now apply IH.
Qed.

Lemma stripPrefix_startsWith (p s : jsstring) :
  startsWith p s = false -> stripPrefix p s = None.
Proof.
  intros H. destruct (stripPrefix p s) eqn:E; [|reflexivity].
  apply stripPrefix_inv in E. subst s.
  now rewrite startsWith_app in H.
Qed.

Lemma includes_app (a p b : jsstring) : includes (a ++ p ++ b) p = true.
Proof.
  induction a as [|c a IH].
  - simpl app. destruct (p ++ b) eqn:E; simpl.
    + destruct p; [reflexivity | discriminate].
    + rewrite <- E, startsWith_app. reflexivity.
  - simpl. rewrite IH. apply orb_true_r.
Qed.

Lemma includes_inv (s p : jsstring) :
  includes s p = true -> exists a b, s = a ++ p ++ b.
Proof.
  induction s as [|c s IH]; simpl; intros H.
  - rewrite orb_false_r in H. destruct (startsWith_inv _ _ H) as [t E].
    exists [], t. exact E.
  - apply orb_true_iff in H as [H|H].
    + destruct (startsWith_inv _ _ H) as [t E]. exists [], t. exact E.
    + destruct (IH H) as (a & b & ->). now exists (c :: a), b.
Qed.

Lemma includes_false_prefix (a c p : jsstring) :
  includes (a ++ c) p = false -> includes a p = false.
Proof.
  intros H. destruct (includes a p) eqn:E; [|reflexivity].
  apply includes_inv in E as (x & y & ->).
  rewrite <- !app_assoc, includes_app in H. discriminate.
Qed.

Lemma includes_refl (s : jsstring) : includes s s = true.
Proof.
  rewrite <- (app_nil_r s) at 1. apply (includes_app [] s []).
Qed.

(** [indexOf] is [-1] or a position of the string. *)
Lemma indexOfFrom_range (p s : jsstring) (i : Z) :
  (0 <= i)%Z ->
  indexOfFrom p s i = (-1)%Z \/
  (i <= indexOfFrom p s i <= i + Z.of_nat (length s))%Z.
Proof.
  revert i; induction s as [|c s IH]; intros i Hi; simpl.
  - destruct (startsWith p []); [right; lia | now left].
  - destruct (startsWith p (c :: s)); [right; lia|].
    destruct (IH (i + 1)%Z ltac:(lia)) as [H|H]; [now left | right; lia].
Qed.

(** A successful search splits the string at the first occurrence. *)
Lemma indexOfFrom_found (p s : jsstring) (i : Z) :
  (0 <= i)%Z -> indexOfFrom p s i <> (-1)%Z ->
  exists pre post, s = pre ++ p ++ post /\
    indexOfFrom p s i = (i + Z.of_nat (length pre))%Z.
Proof.
  revert i; induction s as [|c s IH]; intros i Hi H; simpl in *.
  - destruct (startsWith p []) eqn:E; [|congruence].
    destruct (startsWith_inv _ _ E) as [t Et].
    exists [], t. simpl. split; [exact Et | lia].
  - destruct (startsWith p (c :: s)) eqn:E.
    + destruct (startsWith_inv _ _ E) as [t Et].
      exists [], t. simpl. split; [exact Et | lia].
    + destruct (IH (i + 1)%Z ltac:(lia) H) as (pre & post & -> & Ei).
      exists (c :: pre), post. split; [reflexivity|].
      rewrite Ei. simpl length. lia.
Qed.

Lemma indexOfFrom_includes (p s : jsstring) (i : Z) :
  (0 <= i)%Z -> (indexOfFrom p s i = (-1)%Z <-> includes s p = false).
Proof.
  revert i; induction s as [|c s IH]; intros i Hi; simpl.
  - rewrite orb_false_r. destruct (startsWith p []); split; intros; (lia || congruence).
  - destruct (startsWith p (c :: s)); simpl.
    + split; intros; (lia || congruence).
    + apply IH. lia.
Qed.

Lemma indexOf_absent (s p : jsstring) :
  includes s p = false <-> indexOf s p = (-1)%Z.
Proof. unfold indexOf. symmetry. apply indexOfFrom_includes. lia. Qed.

Lemma slice0_prefix (pre rest : jsstring) :
  slice0 (pre ++ rest) (Z.of_nat (length pre)) = pre.
Proof.
  unfold slice0. rewrite length_app.
  destruct (Z.ltb_spec (Z.of_nat (length pre)) 0); [lia|].
  rewrite Z.min_l by lia. rewrite Nat2Z.id.
  rewrite firstn_app, Nat.sub_diag, firstn_all. simpl. apply app_nil_r.
Qed.

Lemma join_app_cons (sep : jsstring) (l : list jsstring) (x : jsstring) (r : list jsstring) :
  join sep (l ++ x :: r) =
  match l with [] => [] | _ => join sep l ++ sep end
  ++ x ++ match r with [] => [] | _ => sep ++ join sep r end.
Proof.
  induction l as [|y l IH].
  - simpl. destruct r; [now rewrite app_nil_r | reflexivity].
  - destruct l as [|z l].
    + simpl in *. rewrite IH. now rewrite <- !app_assoc.
    + change (join sep ((y :: z :: l) ++ x :: r))
        with (y ++ sep ++ join sep ((z :: l) ++ x :: r)).
      rewrite IH.
      change (join sep (y :: z :: l)) with (y ++ sep ++ join sep (z :: l)).
      now rewrite <- !app_assoc.
Qed.

End StringFacts.

(* ================================================================== *)
(** ** Facts about the matcher *)

Section MatcherFacts.

Variable cls : code_unit -> bool.

Lemma span (s : jsstring) :
  exists v r, s = v ++ r /\ forallb cls v = true /\ stops cls r.
Proof.
  induction s as [|c s (v & r & -> & Hv & Hr)].
  - now exists [], [].
  - destruct (cls c) eqn:Ec.
    + exists (c :: v), r. cbn. now rewrite Ec, Hv.
    + now exists [], (c :: v ++ r).
Qed.

Lemma greedy_stops r caps k : stops cls r -> greedy cls r caps k = k r caps.
Proof. destruct r as [|c r]; simpl; [reflexivity|]. now intros ->. Qed.

Lemma greedy_sound s caps k x :
  greedy cls s caps k = Some x ->
  exists a r, s = a ++ r /\ forallb cls a = true /\ k r caps = Some x.
Proof.
  induction s as [|c s IH]; simpl; intros H.
  - now exists [], [].
  - destruct (cls c) eqn:Ec; [|now exists [], (c :: s)].
    destruct (greedy cls s caps k) eqn:Eg.
    + inversion H; subst. destruct (IH eq_refl) as (a & r & -> & Ha & Hk).
      exists (c :: a), r. simpl. now rewrite Ec, Ha.
    + now exists [], (c :: s).
Qed.

Lemma greedy_none v r caps k :
  forallb cls v = true -> stops cls r ->
  (forall v1 v2, v = v1 ++ v2 -> k (v2 ++ r) caps = None) ->
  greedy cls (v ++ r) caps k = None.
Proof.
  induction v as [|c v IH]; intros Hv Hr Hk.
  - simpl. rewrite greedy_stops by assumption. apply (Hk [] []). reflexivity.
  - simpl in Hv. apply andb_true_iff in Hv as [Hc Hv].
    simpl. rewrite Hc, IH; auto.
    + apply (Hk [] (c :: v)). reflexivity.
    + intros v1 v2 ->. apply (Hk (c :: v1) v2). reflexivity.
Qed.

(** The greedy loop settles on the longest run after which the
    continuation succeeds. *)
Lemma greedy_found t v r caps k x :
  forallb cls t = true -> forallb cls v = true -> stops cls r ->
  (forall v1 v2, v = v1 ++ v2 -> v1 <> [] -> k (v2 ++ r) caps = None) ->
  k (v ++ r) caps = Some x ->
  greedy cls (t ++ v ++ r) caps k = Some x.
Proof.
  intros Ht Hv Hr Hfail Hk. induction t as [|c t IH].
  - simpl. destruct v as [|c v].
    + simpl in *. now rewrite greedy_stops.
    + simpl in Hv. apply andb_true_iff in Hv as [Hc Hv].
      simpl. rewrite Hc, greedy_none; auto.
      intros v1 v2 ->. apply (Hfail (c :: v1) v2); [reflexivity | discriminate].
  - simpl in Ht. apply andb_true_iff in Ht as [Hc Ht].
    simpl. now rewrite Hc, IH.
Qed.

Lemma plus_sound s caps k x :
  matcher (Plus cls) s caps k = Some x ->
  exists a r, s = a ++ r /\ a <> [] /\ forallb cls a = true /\
    k r caps = Some x.
Proof.
  simpl. destruct s as [|c s]; [discriminate|].
  destruct (cls c) eqn:Ec; [|discriminate]. intros H.
  destruct (greedy_sound _ _ _ H) as (a & r & -> & Ha & Hk).
  exists (c :: a), r. simpl. rewrite Ec, Ha.
  split; [reflexivity|]. split; [discriminate|]. now split.
Qed.

Lemma plus_found t v r caps k x :
  t <> [] -> forallb cls t = true -> forallb cls v = true -> stops cls r ->
  (forall v1 v2, v = v1 ++ v2 -> v1 <> [] -> k (v2 ++ r) caps = None) ->
  k (v ++ r) caps = Some x ->
  matcher (Plus cls) (t ++ v ++ r) caps k = Some x.
Proof.
  intros Hne Ht Hv Hr Hfail Hk. destruct t as [|c t]; [congruence|].
  simpl in Ht. apply andb_true_iff in Ht as [Hc Ht].
  simpl. rewrite Hc. now apply greedy_found.
Qed.

Lemma lazy_sound s caps k x :
  lazy cls s caps k = Some x ->
  exists b r, s = b ++ r /\ forallb cls b = true /\ k r caps = Some x /\
    forall b1 b2, b = b1 ++ b2 -> b2 <> [] -> k (b2 ++ r) caps = None.
Proof.
  induction s as [|c s IH]; simpl; intros H.
  - destruct (k [] caps) eqn:Ek; [|discriminate].
    exists [], []. split; [reflexivity|]. split; [reflexivity|].
    split; [congruence|].
    intros b1 b2 E Hb. symmetry in E. apply app_eq_nil in E as [_ ->]. congruence.
  - destruct (k (c :: s) caps) eqn:Ek.
    + exists [], (c :: s). split; [reflexivity|]. split; [reflexivity|].
      split; [congruence|].
      intros b1 b2 E Hb. symmetry in E. apply app_eq_nil in E as [_ ->]. congruence.
    + destruct (cls c) eqn:Ec; [|discriminate].
      destruct (IH H) as (b & r & -> & Hb & Hk & Hmin).
      exists (c :: b), r. simpl. rewrite Ec, Hb.
      split; [reflexivity|]. split; [reflexivity|]. split; [exact Hk|].
      intros b1 b2 E Hb2. destruct b1 as [|c1 b1]; simpl in E.
      * subst b2. exact Ek.
      * inversion E; subst. now apply (Hmin b1 b2).
Qed.

(** The lazy loop settles on the shortest run after which the
    continuation succeeds. *)
Lemma lazy_found b r caps k x :
  forallb cls b = true ->
  (forall b1 b2, b = b1 ++ b2 -> b2 <> [] -> k (b2 ++ r) caps = None) ->
  k r caps = Some x ->
  lazy cls (b ++ r) caps k = Some x.
Proof.
  induction b as [|c b IH]; intros Hb Hfail Hk.
  - simpl. destruct r; simpl; now rewrite Hk.
  - simpl in Hb. apply andb_true_iff in Hb as [Hc Hb].
    pose proof (Hfail [] (c :: b) eq_refl ltac:(discriminate)) as E.
    simpl in *. rewrite E, Hc. apply IH; auto.
    intros b1 b2 -> Hb2. now apply (Hfail (c :: b1) b2).
Qed.

End MatcherFacts.

Section MatcherFacts2.

Lemma chars_sound l s caps k x :
  matcher (Chars l) s caps k = Some x ->
  exists s', s = l ++ s' /\ k s' caps = Some x.
Proof.
  simpl. destruct (stripPrefix l s) as [s'|] eqn:E; [|discriminate].
  intros H. exists s'. split; [now apply stripPrefix_inv | exact H].
Qed.

Lemma chars_found l s caps k : matcher (Chars l) (l ++ s) caps k = k s caps.
Proof. simpl. now rewrite stripPrefix_app. Qed.

Lemma chars_fail l s caps k :
  startsWith l s = false -> matcher (Chars l) s caps k = None.
Proof. intros H. simpl. now rewrite stripPrefix_startsWith. Qed.

(** What a group captures: the part of the input its body went over. *)
Lemma firstn_consumed (a r : jsstring) :
  firstn (length (a ++ r) - length r) (a ++ r) = a.
Proof.
  rewrite length_app, Nat.add_sub, firstn_app, Nat.sub_diag, firstn_all.
  simpl. apply app_nil_r.
Qed.

(** What [execAll] does at a position where a search starts. *)
Lemma execAll_match r c s caps len :
  matchHere r (c :: s) = Some (caps, len) ->
  execAll r (c :: s) 0 = caps :: execAll r s (len - 1).
Proof. intros H. simpl. now rewrite H. Qed.

Lemma execAll_first r s caps len :
  s <> [] -> matchHere r s = Some (caps, len) ->
  execAll r s 0 = caps :: execAll r (tl s) (len - 1).
Proof. destruct s; [congruence|]. intros _. apply execAll_match. Qed.

Lemma execAll_nomatch r c s :
  matchHere r (c :: s) = None -> execAll r (c :: s) 0 = execAll r s 0.
Proof. intros H. simpl. now rewrite H. Qed.

(** Skipping to [lastIndex]. *)
Lemma execAll_skip r a s :
  execAll r (a ++ s) (length a) = execAll r s 0.
Proof.
  induction a as [|c a IH]; [reflexivity|]. simpl. exact IH.
Qed.

(** Every match reported by the loop is a match at some position. *)
Lemma execAll_sound r s skip caps :
  In caps (execAll r s skip) ->
  exists a b len, s = a ++ b /\ matchHere r b = Some (caps, len).
Proof.
  revert skip; induction s as [|c s IH]; intros skip H; simpl in H; [easy|].
  destruct skip as [|n].
  - destruct (matchHere r (c :: s)) as [[caps' len]|] eqn:E.
    + destruct H as [<-|H].
      * now exists [], (c :: s), len.
      * destruct (IH _ H) as (a & b & l & -> & Hm). now exists (c :: a), b, l.
    + destruct (IH _ H) as (a & b & l & -> & Hm). now exists (c :: a), b, l.
  - destruct (IH _ H) as (a & b & l & -> & Hm). now exists (c :: a), b, l.
Qed.

Lemma seq_cons r rs : seq (r :: rs) = Seq r (seq rs).
Proof. reflexivity. Qed.

Lemma matcher_seq r1 r2 s caps k :
  matcher (Seq r1 r2) s caps k =
  matcher r1 s caps (fun s' caps' => matcher r2 s' caps' k).
Proof. reflexivity. Qed.

Lemma group_plus_sound cls s caps k x :
  matcher (Group (Plus cls)) s caps k = Some x ->
  exists a r, s = a ++ r /\ (a <> [] /\ forallb cls a = true) /\
    k r (caps ++ [a]) = Some x.
Proof.
  intros H.
  change (matcher (Plus cls) s caps
            (fun s' caps' => k s' (caps' ++ [firstn (length s - length s') s]))
          = Some x) in H.
  apply plus_sound in H as (a & r & -> & Ha & Hcls & H).
  rewrite firstn_consumed in H. now exists a, r.
Qed.

Lemma group_plus_found cls t v r caps k x :
  t <> [] -> forallb cls t = true -> forallb cls v = true -> stops cls r ->
  (forall v1 v2 c, v = v1 ++ v2 -> v1 <> [] -> k (v2 ++ r) c = None) ->
  k (v ++ r) (caps ++ [t]) = Some x ->
  matcher (Group (Plus cls)) (t ++ v ++ r) caps k = Some x.
Proof.
  intros Ht Hct Hcv Hr Hfail Hk.
  change (matcher (Plus cls) (t ++ v ++ r) caps
            (fun s' caps' =>
               k s' (caps' ++ [firstn (length (t ++ v ++ r) - length s') (t ++ v ++ r)]))
          = Some x).
  apply plus_found; auto.
  - intros v1 v2 E Hv1. now apply Hfail with (v1 := v1).
  - now rewrite firstn_consumed.
Qed.

Lemma chars_strip l s s' caps k :
  stripPrefix l s = Some s' -> matcher (Chars l) s caps k = k s' caps.
Proof. intros H. cbn [matcher]. now rewrite H. Qed.

(** White space, then something that is not white space. *)
Lemma spaces_then w r caps k x :
  w <> [] -> forallb isSpace w = true -> stops isSpace r ->
  k r caps = Some x ->
  matcher (Plus isSpace) (w ++ r) caps k = Some x.
Proof.
  intros Hw Hws Hr Hk.
  change (w ++ r) with (w ++ [] ++ r). apply plus_found; auto.
  intros v1 v2 E Hv1. symmetry in E. apply app_eq_nil in E as [-> _]. congruence.
Qed.

Lemma stops_app cls (t r : jsstring) :
  t <> [] -> stops cls t -> stops cls (t ++ r).
Proof. destruct t; [congruence | auto]. Qed.

Lemma group_lazy_sound cls s caps k x :
  matcher (Group (LazyStar cls)) s caps k = Some x ->
  exists b r, s = b ++ r /\ k r (caps ++ [b]) = Some x /\
    forall b1 b2, b = b1 ++ b2 -> b2 <> [] ->
      k (b2 ++ r) (caps ++ [b1]) = None.
Proof.
  intros H.
  change (lazy cls s caps
            (fun s' caps' => k s' (caps' ++ [firstn (length s - length s') s]))
          = Some x) in H.
  apply lazy_sound in H as (b & r & -> & _ & H & Hmin).
  rewrite firstn_consumed in H. exists b, r.
  split; [reflexivity|]. split; [exact H|].
  intros b1 b2 -> Hb2. specialize (Hmin b1 b2 eq_refl Hb2). cbv beta in Hmin.
  rewrite <- app_assoc in Hmin. now rewrite firstn_consumed in Hmin.
Qed.

Lemma group_lazy_found cls b r caps k x :
  forallb cls b = true ->
  (forall b1 b2 c, b = b1 ++ b2 -> b2 <> [] -> k (b2 ++ r) c = None) ->
  k r (caps ++ [b]) = Some x ->
  matcher (Group (LazyStar cls)) (b ++ r) caps k = Some x.
Proof.
  intros Hb Hfail Hk.
  change (lazy cls (b ++ r) caps
            (fun s' caps' =>
               k s' (caps' ++ [firstn (length (b ++ r) - length s') (b ++ r)]))
          = Some x).
  apply lazy_found; auto.
  - intros b1 b2 E Hb2. now apply Hfail with (b1 := b1).
  - now rewrite firstn_consumed.
Qed.

Lemma spaces_sound s caps k x :
  matcher (Plus isSpace) s caps k = Some x ->
  exists w r, s = w ++ r /\ spaces w /\ k r caps = Some x.
Proof.
  intros H. apply plus_sound in H as (w & r & -> & Hw & Hws & H).
  now exists w, r.
Qed.

End MatcherFacts2.

(** Steps through a pattern that is a sequence. *)
Ltac chars_step H s :=
  rewrite matcher_seq in H; apply chars_sound in H as (s & -> & H);
  cbv beta in H.
Ltac spaces_step H w s Hw :=
  rewrite matcher_seq in H; apply spaces_sound in H as (w & s & -> & Hw & H);
  cbv beta in H.
Ltac group_step H a s Ha :=
  rewrite matcher_seq in H; apply group_plus_sound in H as (a & s & -> & Ha & H);
  cbv beta in H.

(* ================================================================== *)
(** ** The sections pattern *)

Section SectionsPattern.

Lemma ahead_boundary s caps k :
  matcher (Ahead (Alt (Chars nextHeading) EndOfInput)) s caps k =
  if atBoundary s then k s caps else None.
Proof.
  unfold atBoundary. cbn [matcher].
  destruct (startsWith nextHeading s) eqn:E.
  - destruct (startsWith_inv _ _ E) as [t ->].
    now rewrite stripPrefix_app.
  - rewrite stripPrefix_startsWith by assumption.
    now destruct s.
Qed.

Lemma anyChar_all (b : jsstring) : forallb anyChar b = true.
Proof.
  induction b as [|c b IH]; [reflexivity|]. simpl. rewrite IH.
  unfold anyChar. now destruct (isSpace c).
Qed.

(** A match of the pattern, taken apart. *)
Lemma sections_match_inv s caps len :
  matchHere existingSectionsRegex s = Some (caps, len) ->
  exists w t b rest,
    s = lit "###" ++ w ++ t ++ separator ++ b ++ rest /\
    w <> [] /\ forallb isSpace w = true /\
    t <> [] /\ forallb notHash t = true /\
    caps = [t; b] /\ len = length s - length rest /\
    atBoundary rest = true /\
    (forall b1 b2, b = b1 ++ b2 -> b2 <> [] -> atBoundary (b2 ++ rest) = false).
Proof.
  unfold matchHere.
  destruct (matcher _ s [] _) as [[s' caps']|] eqn:H; [|discriminate].
  intros E. inversion E; subst caps' len. clear E.
  unfold existingSectionsRegex in H. rewrite !seq_cons in H.
  chars_step H s1. spaces_step H w s2 Hw.
  group_step H t s3 Ht. chars_step H s4.
  rewrite matcher_seq in H.
  apply group_lazy_sound in H as (b & rest & -> & H & Hmin).
  rewrite matcher_seq, ahead_boundary in H.
  destruct (atBoundary rest) eqn:Hb; [|discriminate].
  cbn in H. inversion H; subst s' caps. clear H.
  exists w, t, b, rest. destruct Hw as [Hw Hws]. destruct Ht as [Ht Hth].
  repeat (split; [solve [auto] |]).
  intros b1 b2 -> Hb2. specialize (Hmin b1 b2 eq_refl Hb2).
  rewrite matcher_seq, ahead_boundary in Hmin.
  now destruct (atBoundary (b2 ++ rest)).
Qed.

Lemma separator_eq : separator = [10; 45; 45; 45; 10]%N.
Proof. reflexivity. Qed.

(** No later separator line in [separator ++ v]: the title group cannot
    stretch further than the first separator line. *)
Lemma separator_not_later (v v1 v2 r : jsstring) :
  includes ([LF] ++ v) separator = false ->
  stops notHash r ->
  separator ++ v = v1 ++ v2 -> v1 <> [] ->
  startsWith separator (v2 ++ r) = false.
Proof.
  intros Hinc Hr E Hv1.
  destruct (startsWith separator (v2 ++ r)) eqn:Hs; [exfalso | reflexivity].
  apply startsWith_inv in Hs as [q Hq].
  assert (Hv2 : exists v2', v2 = separator ++ v2').
  { rewrite separator_eq in Hq |- *.
    do 5 (destruct v2 as [|? v2];
          [ cbn in Hq; destruct r as [|? ?]; [discriminate|];
            cbn in Hr; inversion Hq; subst; discriminate |]).
    cbn in Hq. inversion Hq; subst. now exists v2. }
  destruct Hv2 as [v2' ->].
  destruct v1 as [|e1 v1]; [congruence|].
  assert (Hv : exists a, [LF] ++ v = a ++ separator ++ v2').
  { rewrite separator_eq in E |- *. cbn in E.
    do 3 (destruct v1 as [|? v1]; [cbn in E; inversion E |]).
    cbn in E. injection E as _ _ _ _ E.
    exists v1. exact E. }
  destruct Hv as [a Ha]. rewrite Ha, includes_app in Hinc. discriminate.
Qed.

(** Inside a body that holds no [\n###], the lookahead fails. *)
Lemma no_boundary_inside (b1 b2 rest : jsstring) :
  includes (b1 ++ b2) nextHeading = false -> b2 <> [] ->
  rest = [] \/ (exists z, rest = nextHeading ++ z) ->
  atBoundary (b2 ++ rest) = false.
Proof.
  intros Hinc Hne Hrest. unfold atBoundary.
  destruct b2 as [|c1 b2]; [congruence|].
  rewrite orb_false_r.
  destruct (startsWith nextHeading ((c1 :: b2) ++ rest)) eqn:E; [|reflexivity].
  apply startsWith_inv in E as [q E]. exfalso.
  assert (Hb2 : exists b2', c1 :: b2 = nextHeading ++ b2').
  { cbn in E |- *.
    do 3 (destruct b2 as [|? b2];
          [ destruct Hrest as [->|[z ->]]; cbn in E; inversion E |]).
    cbn in E. injection E as -> -> -> -> _. now exists b2. }
  destruct Hb2 as [b2' Hb2]. rewrite Hb2, includes_app in Hinc. discriminate.
Qed.

(** A heading line, a separator line and a body: what the pattern finds
    at the start of such a block.  The heading does not start with white
    space and contains no [#]; the body holds no further separator line
    and runs up to the end of the input or to the line break before the
    next heading. *)
Lemma sections_match_block (w t b rest : jsstring) :
  w <> [] -> forallb isSpace w = true ->
  t <> [] -> stops isSpace t -> forallb notHash t = true ->
  includes b nextHeading = false ->
  includes ([LF] ++ b ++ [LF]) separator = false ->
  rest = [] \/ (exists z, rest = nextHeading ++ z) ->
  matchHere existingSectionsRegex
    (lit "###" ++ w ++ t ++ separator ++ b ++ rest)
  = Some ([t; b], length (lit "###" ++ w ++ t ++ separator ++ b)).
Proof.
  intros Hw Hws Ht Hts Hth Hb Hsep Hrest.
  assert (Hb0 : atBoundary rest = true).
  { destruct Hrest as [->|[z ->]]; [reflexivity|].
    unfold atBoundary. now rewrite startsWith_app. }
  (* the run of [^#] characters after the heading, and what follows it *)
  destruct (span notHash (b ++ rest)) as (v & r & Hvr & Hv & Hr).
  assert (Hinc : includes ([LF] ++ v) separator = false).
  { assert (Hpre : exists y, b ++ [LF] = v ++ y).
    { apply app_eq_app in Hvr as [l [[E1 E2]|[E1 E2]]].
      - exists (l ++ [LF]). now rewrite E1, <- app_assoc.
      - destruct l as [|c1 [|c2 l]].
        + exists [LF]. now rewrite E1, app_nil_r.
        + exists []. rewrite E1, app_nil_r.
          destruct Hrest as [->|[z ->]]; [discriminate|].
          cbn in E2. injection E2 as <- _. reflexivity.
        + exfalso. destruct Hrest as [->|[z ->]]; [discriminate|].
          cbn in E2. injection E2 as <- <- _.
          rewrite E1, forallb_app in Hv. cbn in Hv.
          rewrite andb_false_r in Hv. discriminate. }
    destruct Hpre as [y Hy]. rewrite Hy in Hsep.
    replace ([LF] ++ v ++ y) with (([LF] ++ v) ++ y) in Hsep
      by now rewrite <- app_assoc.
    now apply includes_false_prefix in Hsep. }
  assert (H : matcher existingSectionsRegex
                 (lit "###" ++ w ++ t ++ separator ++ b ++ rest) []
                 (fun s' caps => Some (s', caps)) = Some (rest, [t; b])).
  { unfold existingSectionsRegex. rewrite !seq_cons.
    rewrite matcher_seq, chars_found.
    rewrite matcher_seq.
    apply spaces_then; [assumption | assumption | now apply stops_app |].
    rewrite matcher_seq, Hvr.
    replace (t ++ separator ++ v ++ r) with (t ++ (separator ++ v) ++ r)
      by now rewrite <- app_assoc.
    apply group_plus_found; auto.
    - intros v1 v2 c E Hv1. rewrite matcher_seq. apply chars_fail.
      eapply separator_not_later; eauto.
    - rewrite <- app_assoc, <- Hvr.
      rewrite matcher_seq, chars_found, matcher_seq.
      apply group_lazy_found.
      + apply anyChar_all.
      + intros b1 b2 c -> Hb2. rewrite matcher_seq, ahead_boundary.
        now rewrite (no_boundary_inside b1).
      + rewrite matcher_seq, ahead_boundary, Hb0. reflexivity. }
  unfold matchHere. rewrite H. f_equal. f_equal.
  rewrite !length_app. lia.
Qed.

End SectionsPattern.

(* ================================================================== *)
(** ** Scanning a document for sections *)

Section SectionsScan.

Lemma isSpace_notHash (w : jsstring) :
  forallb isSpace w = true -> forallb notHash w = true.
Proof.
  induction w as [|c w IH]; [reflexivity|]. simpl.
  intros H. apply andb_true_iff in H as [Hc Hw]. rewrite (IH Hw), andb_true_r.
  unfold notHash. destruct (N.eqb_spec c HASH) as [->|]; [discriminate | reflexivity].
Qed.

Lemma lineStart_tail c X : lineStart (c :: X) -> lineStart X.
Proof.
  intros [H|[[X' HX] Hsep]]; [discriminate|].
  destruct X as [|d X]; [now left | right]. split.
  - destruct X' as [|c' X']; [discriminate|].
    injection HX as _ HX. now exists X'.
  - intros Y E. apply (Hsep (c :: Y)). now rewrite E.
Qed.

Lemma lineStart_after (X : jsstring) (c : code_unit) :
  c <> 45%N -> lineStart (X ++ [c; LF]).
Proof.
  intros Hc. right. split.
  - exists (X ++ [c]). now rewrite <- app_assoc.
  - intros Y E. rewrite separator_eq in E.
    change (X ++ [c; LF]) with (X ++ [c] ++ [LF]) in E.
    change (Y ++ [10; 45; 45; 45; 10]%N) with (Y ++ [10; 45; 45]%N ++ [45%N] ++ [10%N]) in E.
    rewrite !app_assoc in E.
    apply app_inj_tail in E as [E _].
    apply app_inj_tail in E as [_ E]. congruence.
Qed.

(** A match that starts in the text before a heading ends before the
    line break in front of that heading. *)
Lemma sections_match_bound (X T : jsstring) caps len :
  X <> [] -> lineStart X -> startsWith (lit "###") T = true ->
  matchHere existingSectionsRegex (X ++ T) = Some (caps, len) ->
  len <= length X - 1.
Proof.
  intros HX [HX0|[[X' ->] Hsep]] HT Hm; [congruence|].
  apply startsWith_inv in HT as [T' ->].
  apply sections_match_inv in Hm
    as (w & t & b & rest & E & _ & Hw & _ & Ht & _ & -> & _ & Hmin).
  apply isSpace_notHash in Hw.
  assert (Hh : forallb notHash (w ++ t ++ separator) = true).
  { rewrite !forallb_app, Hw, Ht. reflexivity. }
  replace (lit "###" ++ w ++ t ++ separator ++ b ++ rest)
    with ((lit "###" ++ w ++ t ++ separator) ++ b ++ rest) in E
    by now rewrite <- !app_assoc.
  assert (Hne : forall l, X' ++ [LF] = (lit "###" ++ w ++ t ++ separator) ++ l -> l <> []).
  { intros l El ->. rewrite app_nil_r in El.
    apply (Hsep (lit "###" ++ w ++ t)). now rewrite El, <- !app_assoc. }
  apply app_eq_app in E as [l [[E1 E2]|[E1 E2]]].
  - (* the heading part ends inside [X] *)
    pose proof (Hne l E1) as Hl.
    destruct (exists_last Hl) as (l' & a & ->).
    rewrite app_assoc in E1. apply app_inj_tail in E1 as [-> <-].
    rewrite <- app_assoc in E2. cbn [app] in E2.
    apply app_eq_app in E2 as [m [[E3 E4]|[E3 E4]]].
    + destruct m as [|c m].
      * rewrite app_nil_l in E4. subst rest. rewrite app_nil_r in E3. subst l'.
        repeat (rewrite length_app || cbn [length]). lia.
      * exfalso. subst b.
        specialize (Hmin l' (c :: m) eq_refl ltac:(discriminate)).
        rewrite <- E4 in Hmin. discriminate.
    + subst l' rest. repeat (rewrite length_app || cbn [length]). lia.
  - (* the heading part would run into the [###] after [X] *)
    exfalso. destruct l as [|c l].
    + apply (Hne []); [now rewrite E1, !app_nil_r | reflexivity].
    + cbn in E2. injection E2 as <- _.
      remember (w ++ t ++ separator) as h eqn:Eh.
      destruct X' as [|x1 [|x2 [|x3 X']]]; cbn in E1; try discriminate.
      injection E1 as _ _ _ E1.
      rewrite E1, forallb_app in Hh. cbn in Hh.
      rewrite andb_false_r in Hh. discriminate.
Qed.

(** The search reaches every heading that starts a line of its own. *)
Lemma sections_scan_reach (X T : jsstring) (skip : nat) :
  lineStart X -> startsWith (lit "###") T = true -> skip <= length X - 1 ->
  exists pre,
    execAll existingSectionsRegex (X ++ T) skip =
    pre ++ execAll existingSectionsRegex T 0.
Proof.
  revert skip. induction X as [|c X IH]; intros skip HX HT Hskip.
  - cbn in Hskip. replace skip with 0 by lia. now exists [].
  - pose proof (lineStart_tail HX) as HX'.
    cbn [app]. destruct skip as [|n].
    + destruct (matchHere existingSectionsRegex (c :: X ++ T))
        as [[caps len]|] eqn:Hm.
      * rewrite (execAll_match _ _ _ Hm).
        apply (sections_match_bound (X := c :: X)) in Hm; auto; [|discriminate].
        cbn [length] in Hm.
        destruct (IH (len - 1) HX' HT ltac:(lia)) as [pre ->].
        now exists (caps :: pre).
      * rewrite (execAll_nomatch _ _ _ Hm). apply IH; auto. lia.
    + cbn [execAll]. cbn [length] in Hskip. apply IH; auto. lia.
Qed.

End SectionsScan.

(* ================================================================== *)
(** ** The [forEach] loop *)

Section Loop.

Lemma addSection_readable sections dirName file :
  file <> ReadmeUnreadable ->
  exists sections', addSection sections dirName file = Ok sections'.
Proof.
  destruct file as [|content|]; intros H; cbn; [eauto| |congruence].
  destruct (negb _); eauto.
Qed.

Lemma forEach_readable entries st :
  readable entries -> exists st', forEach entries st = Ok st'.
Proof.
  revert st; induction entries as [|e entries IH]; intros st H; [now exists st|].
  cbn [forEach]. unfold visit.
  assert (H' : readable entries) by (intros e' ? ?; apply H; [now right | assumption]).
  destruct (isDirectory e) eqn:Ed; cbn [bind]; [|now apply IH].
  destruct (addSection_readable (snd st) (name e) (H e (or_introl eq_refl) Ed))
    as [s' ->].
  cbn [bind]. now apply IH.
Qed.

Lemma forEach_succeeds_readable entries st st' :
  forEach entries st = Ok st' -> readable entries.
Proof.
  revert st; induction entries as [|e entries IH]; intros st H e' He' Hd.
  - destruct He'.
  - cbn [forEach] in H. unfold visit in H.
    destruct He' as [<-|He'].
    + rewrite Hd in H. intros Hr. rewrite Hr in H. discriminate.
    + destruct (visit st e) as [st1|] eqn:Ev; unfold visit in Ev; rewrite Ev in H;
        [|discriminate].
      cbn [bind] in H. now apply (IH _ H).
Qed.

(** The loop only fails with the error of a failed read. *)
Lemma forEach_throws entries st e :
  forEach entries st = Throw e -> e = IoError.
Proof.
  revert st; induction entries as [|d entries IH]; intros st H; [discriminate|].
  cbn [forEach] in H. unfold visit in H.
  destruct (isDirectory d); cbn [bind] in H; [|now apply IH in H].
  destruct (readme d) as [|content|]; cbn [addSection bind] in H.
  - now apply IH in H.
  - destruct (negb _); cbn [bind] in H; now apply IH in H.
  - now inversion H.
Qed.

(** The links only depend on the names of the directories. *)
Lemma forEach_links entries links sections links' sections' :
  forEach entries (links, sections) = Ok (links', sections') ->
  links' = fold_left addLink (directories entries) links.
Proof.
  revert links sections; induction entries as [|e entries IH];
    intros links sections H.
  - cbn in H. now inversion H.
  - cbn [forEach] in H. unfold visit, directories in *. cbn [filter].
    destruct (isDirectory e); cbn [bind fst snd map fold_left] in *.
    + destruct (addSection sections (name e) (readme e)) as [s1|]; [|discriminate].
      cbn [bind] in H. now apply IH in H.
    + now apply IH in H.
Qed.

Lemma addLink_cases links dirName :
  (linked links dirName = false /\
   addLink links dirName = links ++ [link dirName dirName]) \/
  (linked links dirName = true /\ addLink links dirName = links).
Proof.
  unfold addLink, relativePath. destruct (linked links dirName); cbn; auto.
Qed.

Lemma linked_app l1 l2 d : linked (l1 ++ l2) d = linked l1 d || linked l2 d.
Proof. unfold linked, some. apply existsb_app. Qed.

(** A link mentions its own directory. *)
Lemma link_includes_dir folderName folderTitle :
  includes (link folderName folderTitle) (lit "./" ++ folderName ++ lit "/") = true.
Proof.
  unfold link.
  replace (lit "<a href=" ++ [QUOT] ++ lit "./" ++ folderName ++ lit "/" ++ [QUOT]
           ++ lit " style=" ++ [QUOT] ++ lit "font-weight: bold; margin-bottom:200px;"
           ++ [QUOT] ++ lit ">" ++ [GLYPH] ++ lit " " ++ folderTitle ++ lit "</a></br>")
    with ((lit "<a href=" ++ [QUOT]) ++ (lit "./" ++ folderName ++ lit "/")
          ++ ([QUOT] ++ lit " style=" ++ [QUOT]
              ++ lit "font-weight: bold; margin-bottom:200px;"
              ++ [QUOT] ++ lit ">" ++ [GLYPH] ++ lit " " ++ folderTitle
              ++ lit "</a></br>"))
    by now rewrite <- !app_assoc.
  apply includes_app.
Qed.

Lemma linked_own links d : linked (links ++ [link d d]) d = true.
Proof.
  rewrite linked_app. unfold linked at 2, some. cbn [existsb].
  rewrite link_includes_dir. apply orb_true_r.
Qed.

Lemma subsequence_in (A : Type) (l1 l2 : list A) x :
  subsequence l1 l2 -> In x l1 -> In x l2.
Proof.
  induction 1; cbn; [easy | auto |]. intros [->|H1]; auto.
Qed.

(** What the loop does to the links: the links it starts from are kept,
    in order; one link is added, in enumeration order, for each
    directory that no link mentions yet. *)
Lemma fold_addLink ds links :
  exists added,
    fold_left addLink ds links = links ++ map (fun d => link d d) added /\
    subsequence added ds /\
    NoDup added /\
    (forall d, In d added -> linked links d = false) /\
    (forall d, In d ds -> linked (fold_left addLink ds links) d = true) /\
    (forall d, linked links d = true ->
       linked (fold_left addLink ds links) d = true).
Proof.
  revert links; induction ds as [|d ds IH]; intros links.
  - exists []. cbn. rewrite app_nil_r.
    split; [reflexivity|]. split; [constructor|]. split; [constructor|].
    split; [easy|]. split; [easy | auto].
  - cbn [fold_left].
    destruct (IH (addLink links d)) as (added & E & Hsub & Hnd & Hnew & Hall & Hmono).
    destruct (addLink_cases links d) as [[Hl Ea]|[Hl Ea]]; rewrite Ea in *.
    + exists (d :: added). cbn [map]. rewrite E, <- app_assoc. cbn [app].
      split; [reflexivity|]. split; [now constructor|]. split.
      { constructor; [|assumption]. intros Hin. apply Hnew in Hin.
        now rewrite linked_own in Hin. }
      split.
      { intros d' [<-|Hin]; [assumption|]. apply Hnew in Hin.
        rewrite linked_app in Hin. now apply orb_false_iff in Hin as [Hin _]. }
      split.
      { intros d' [<-|Hin].
        - rewrite <- app_assoc in E. cbn [app] in E. rewrite <- E.
          apply Hmono, linked_own.
        - rewrite <- app_assoc in E. cbn [app] in E. rewrite <- E. now apply Hall. }
      { intros d' Hd'. rewrite <- app_assoc in E. cbn [app] in E. rewrite <- E.
        apply Hmono. rewrite linked_app, Hd'. reflexivity. }
    + exists added. split; [assumption|]. split; [now constructor|].
      split; [assumption|]. split; [assumption|]. split; [|assumption].
      intros d' [<-|Hin]; [now apply Hmono | now apply Hall].
Qed.

Lemma recorded_app s1 s2 d c :
  recorded (s1 ++ s2) d c = recorded s1 d c || recorded s2 d c.
Proof. unfold recorded, some. apply existsb_app. Qed.

(** The template of a new section holds the text that is looked for. *)
Lemma readmeSection_includes dirName content :
  includes (readmeSection dirName content) (sectionText dirName content) = true.
Proof.
  unfold readmeSection, sectionText.
  replace ([LF] ++ lit "### " ++ dirName ++ [LF] ++ lit "---" ++ [LF] ++ content
           ++ [LF] ++ lit "                    ")
    with ([LF] ++ (lit "### " ++ dirName ++ [LF] ++ lit "---" ++ [LF] ++ content)
          ++ [LF] ++ lit "                    ")
    by now rewrite <- !app_assoc.
  apply includes_app.
Qed.

Lemma addSection_cases sections dirName content :
  (recorded sections dirName (trim content) = false /\
   addSection sections dirName (ReadmeFile content)
   = Ok (sections ++ [readmeSection dirName (trim content)])) \/
  (recorded sections dirName (trim content) = true /\
   addSection sections dirName (ReadmeFile content) = Ok sections).
Proof.
  cbn. destruct (recorded sections dirName (trim content)); cbn; auto.
Qed.

(** What the loop does to the sections: the sections it starts from are
    kept, in order; the sections added are instances of the template, one
    for a directory whose README.md is not recorded when it is visited. *)
Lemma forEach_sections entries links sections links' sections' :
  forEach entries (links, sections) = Ok (links', sections') ->
  exists added,
    sections' = sections ++ added /\
    (forall x, In x added ->
       exists e content, In e entries /\ isDirectory e = true /\
         readme e = ReadmeFile content /\
         x = readmeSection (name e) (trim content) /\
         recorded sections (name e) (trim content) = false) /\
    (forall d c, recorded sections d c = true -> recorded sections' d c = true).
Proof.
  revert links sections; induction entries as [|e entries IH];
    intros links sections H.
  - cbn in H. inversion H; subst. exists []. rewrite app_nil_r.
    split; [reflexivity|]. split; [easy | auto].
  - cbn [forEach] in H. unfold visit in H.
    destruct (isDirectory e) eqn:Ed; cbn [bind fst snd] in H.
    + destruct (addSection sections (name e) (readme e)) as [s1|] eqn:Ea;
        [|discriminate].
      cbn [bind] in H. destruct (IH _ _ H) as (added & -> & Hadd & Hmono).
      destruct (readme e) as [|content|] eqn:Er; [| |discriminate].
      * cbn in Ea. inversion Ea; subst s1.
        exists added. split; [reflexivity|]. split; [|assumption].
        intros x Hx. destruct (Hadd x Hx) as (e' & c' & ? & ? & ? & ? & ?).
        exists e', c'. repeat split; auto. now right.
      * destruct (addSection_cases sections (name e) content) as [[Hr Eb]|[Hr Eb]];
          rewrite Eb in Ea; inversion Ea; subst s1.
        -- exists (readmeSection (name e) (trim content) :: added).
           split; [now rewrite <- app_assoc|]. split.
           ++ intros x [<-|Hx].
              ** exists e, content. repeat split; auto. now left.
              ** destruct (Hadd x Hx) as (e' & c' & ? & ? & ? & ? & Hrec).
                 exists e', c'. repeat split; auto; [now right|].
                 rewrite recorded_app in Hrec.
                 now apply orb_false_iff in Hrec as [Hrec _].
           ++ intros d c Hdc. apply Hmono.
              now rewrite recorded_app, Hdc.
        -- exists added. split; [reflexivity|]. split; [|assumption].
           intros x Hx. destruct (Hadd x Hx) as (e' & c' & ? & ? & ? & ? & ?).
           exists e', c'. repeat split; auto. now right.
    + destruct (IH _ _ H) as (added & -> & Hadd & Hmono).
      exists added. split; [reflexivity|]. split; [|assumption].
      intros x Hx. destruct (Hadd x Hx) as (e' & c' & ? & ? & ? & ? & ?).
      exists e', c'. repeat split; auto. now right.
Qed.

End Loop.

(* ================================================================== *)
(** ** The links pattern *)

Section LinksPattern.

Lemma link_anchor folderName folderTitle :
  link folderName folderTitle
  = anchor [SPACE] folderName [SPACE] [SPACE] [SPACE] [SPACE] folderTitle.
Proof. reflexivity. Qed.

(** A match of the pattern, taken apart. *)
Lemma links_match_inv s caps len :
  matchHere existingLinksRegex s = Some (caps, len) ->
  exists w1 n w2 w3 w4 w5 t rest,
    s = anchor w1 n w2 w3 w4 w5 t ++ rest /\
    spaces w1 /\ spaces w2 /\ spaces w3 /\ spaces w4 /\ spaces w5 /\
    n <> [] /\ forallb notQuot n = true /\
    t <> [] /\ forallb notLt t = true /\
    caps = [n; t] /\ len = length (anchor w1 n w2 w3 w4 w5 t).
Proof.
  unfold matchHere.
  destruct (matcher _ s [] _) as [[s' caps']|] eqn:H; [|discriminate].
  intros E. inversion E; subst caps' len. clear E.
  unfold existingLinksRegex in H. rewrite !seq_cons in H.
  chars_step H s1. spaces_step H w1 s2 Hw1.
  chars_step H s3. group_step H n s4 Hn.
  chars_step H s5. spaces_step H w2 s6 Hw2.
  chars_step H s7. spaces_step H w3 s8 Hw3.
  chars_step H s9. spaces_step H w4 s10 Hw4.
  chars_step H s11. spaces_step H w5 s12 Hw5.
  group_step H t s13 Ht.
  chars_step H s14.
  apply chars_sound in H as (s15 & -> & H). inversion H; subst s15 caps. clear H.
  exists w1, n, w2, w3, w4, w5, t, s'.
  assert (E : lit "<a" ++ w1 ++ (lit "href=" ++ [QUOT] ++ lit "./") ++ n
              ++ (lit "/" ++ [QUOT]) ++ w2
              ++ (lit "style=" ++ [QUOT] ++ lit "font-weight:") ++ w3
              ++ lit "bold;" ++ w4
              ++ (lit "margin-bottom:200px;" ++ [QUOT] ++ lit ">" ++ [GLYPH])
              ++ w5 ++ t ++ lit "</a></br>" ++ [] ++ s'
              = anchor w1 n w2 w3 w4 w5 t ++ s').
  { unfold anchor. now rewrite <- !app_assoc. }
  rewrite E. unfold spaces in *. cbn [app].
  repeat (split; [solve [tauto | reflexivity] |]).
  rewrite length_app. lia.
Qed.

(** What the pattern finds at the start of an anchor: the directory name
    of the [href] holds no double quote; the title holds no [<] and does
    not start with white space. *)
Lemma links_match_anchor (w1 n w2 w3 w4 w5 t rest : jsstring) :
  spaces w1 -> spaces w2 -> spaces w3 -> spaces w4 -> spaces w5 ->
  n <> [] -> forallb notQuot n = true ->
  t <> [] -> forallb notLt t = true -> stops isSpace t ->
  matchHere existingLinksRegex (anchor w1 n w2 w3 w4 w5 t ++ rest)
  = Some ([n; t], length (anchor w1 n w2 w3 w4 w5 t)).
Proof.
  intros [Hw1 Hs1] [Hw2 Hs2] [Hw3 Hs3] [Hw4 Hs4] [Hw5 Hs5] Hn Hnq Ht Htl Hts.
  assert (H : matcher existingLinksRegex (anchor w1 n w2 w3 w4 w5 t ++ rest) []
                (fun s' caps => Some (s', caps)) = Some (rest, [n; t])).
  { unfold existingLinksRegex, anchor. rewrite !seq_cons, <- !app_assoc.
    rewrite matcher_seq. erewrite chars_strip by reflexivity.
    rewrite matcher_seq. apply spaces_then; [assumption|assumption|reflexivity|].
    rewrite matcher_seq. erewrite chars_strip by reflexivity.
    rewrite matcher_seq.
    apply group_plus_found; [assumption|assumption|reflexivity|reflexivity| |].
    { intros v1 v2 c E Hv1.
      destruct v1 as [|a1 [|a2 v1]]; [congruence| |discriminate].
      cbn in E. injection E as _ <-.
      rewrite matcher_seq. now apply chars_fail. }
    rewrite matcher_seq. erewrite chars_strip by reflexivity.
    rewrite matcher_seq. apply spaces_then; [assumption|assumption|reflexivity|].
    rewrite matcher_seq. erewrite chars_strip by reflexivity.
    rewrite matcher_seq. apply spaces_then; [assumption|assumption|reflexivity|].
    rewrite matcher_seq. erewrite chars_strip by reflexivity.
    rewrite matcher_seq. apply spaces_then; [assumption|assumption|reflexivity|].
    rewrite matcher_seq. erewrite chars_strip by reflexivity.
    rewrite matcher_seq. apply spaces_then; [assumption|assumption|now apply stops_app|].
    rewrite matcher_seq.
    change (t ++ lit "</a></br>" ++ rest) with (t ++ [] ++ lit "</a></br>" ++ rest).
    apply group_plus_found; [assumption|assumption|reflexivity|reflexivity| |].
    { intros v1 v2 c E Hv1. symmetry in E. apply app_eq_nil in E as [-> _].
      congruence. }
    cbn [app]. rewrite matcher_seq. erewrite chars_strip by reflexivity.
    reflexivity. }
  unfold matchHere. rewrite H. f_equal. f_equal.
  rewrite length_app. lia.
Qed.

(** A match starts with [<a]. *)
Lemma links_match_start s caps len :
  matchHere existingLinksRegex s = Some (caps, len) ->
  startsWith (lit "<a") s = true.
Proof.
  intros H. apply links_match_inv in H as (w1 & n & w2 & w3 & w4 & w5 & t & rest & -> & _).
  reflexivity.
Qed.

(** No match starts in a text that holds no [<a]. *)
Lemma links_scan_skip (A S : jsstring) :
  includes A (lit "<a") = false -> stops (fun c => (c =? 97)%N) S ->
  execAll existingLinksRegex (A ++ S) 0 = execAll existingLinksRegex S 0.
Proof.
  intros HA HS. induction A as [|c A IH]; [reflexivity|].
  cbn [includes] in HA. apply orb_false_iff in HA as [Hc HA].
  cbn [app]. rewrite execAll_nomatch; [now apply IH|].
  destruct (matchHere existingLinksRegex (c :: A ++ S)) as [[caps len]|] eqn:E;
    [exfalso | reflexivity].
  apply links_match_start in E. apply startsWith_inv in E as [q E].
  destruct A as [|a A].
  - destruct S as [|x S]; [discriminate|].
    cbn in E, HS. injection E as _ ->. discriminate.
  - cbn in E. injection E as -> -> _. discriminate.
Qed.

(** An anchor that follows a text without [<a] is read back as the
    template, and the search goes on after it. *)
Lemma anchor_read_back (A w1 n w2 w3 w4 w5 t rest : jsstring) :
  includes A (lit "<a") = false ->
  spaces w1 -> spaces w2 -> spaces w3 -> spaces w4 -> spaces w5 ->
  n <> [] -> forallb notQuot n = true ->
  t <> [] -> forallb notLt t = true -> stops isSpace t ->
  existingLinks (A ++ anchor w1 n w2 w3 w4 w5 t ++ rest)
  = link n t :: existingLinks rest.
Proof.
  intros HA H1 H2 H3 H4 H5 Hn Hnq Ht Htl Hts.
  unfold existingLinks.
  rewrite links_scan_skip by (exact HA || reflexivity).
  pose proof (@links_match_anchor w1 n w2 w3 w4 w5 t rest
                H1 H2 H3 H4 H5 Hn Hnq Ht Htl Hts) as Hm.
  assert (HT : anchor w1 n w2 w3 w4 w5 t ++ rest <> []) by discriminate.
  rewrite (execAll_first _ HT Hm). cbn [map group nth Nat.sub]. f_equal.
  replace (tl (anchor w1 n w2 w3 w4 w5 t ++ rest))
    with (tl (anchor w1 n w2 w3 w4 w5 t) ++ rest) by reflexivity.
  replace (length (anchor w1 n w2 w3 w4 w5 t) - 1)
    with (length (tl (anchor w1 n w2 w3 w4 w5 t)))
    by (unfold anchor; cbn [lit list_ascii_of_string map app tl length]; lia).
  now rewrite execAll_skip.
Qed.

(** No [<a] across a line break. *)
Lemma includes_anchor_sep (A B : jsstring) :
  includes A (lit "<a") = false -> includes B (lit "<a") = false ->
  includes (A ++ LF :: B) (lit "<a") = false.
Proof.
  intros HA HB. induction A as [|c A IH].
  - cbn [app includes]. rewrite HB. reflexivity.
  - cbn [includes] in HA. apply orb_false_iff in HA as [Hc HA].
    cbn [app includes]. rewrite (IH HA), orb_false_r.
    destruct A as [|a A]; [|exact Hc].
    cbn. now rewrite andb_false_r.
Qed.

Lemma existingLinks_none (s : jsstring) :
  includes s (lit "<a") = false -> existingLinks s = [].
Proof.
  intros H. unfold existingLinks.
  rewrite <- (app_nil_r s), links_scan_skip by (exact H || exact I).
  reflexivity.
Qed.

(** The links made for plain directory names are all read back, in
    order, from a text in which nothing else looks like an anchor. *)
Lemma links_all_read_back (ds : list jsstring) (A S : jsstring) :
  includes A (lit "<a") = false -> includes S (lit "<a") = false ->
  (forall d, In d ds -> plainName d) ->
  existingLinks (A ++ join [LF] (map (fun d => link d d) ds) ++ [LF] ++ S)
  = map (fun d => link d d) ds.
Proof.
  revert A; induction ds as [|d ds IH]; intros A HA HS Hds.
  - cbn [map join app]. apply existingLinks_none.
    now apply (includes_anchor_sep A S).
  - destruct (Hds d (or_introl eq_refl)) as (Hd & Hq & Hl & Hs).
    assert (Hds' : forall d', In d' ds -> plainName d')
      by (intros d' Hd'; apply Hds; now right).
    assert (Hsp : spaces [SPACE]) by (split; [discriminate | reflexivity]).
    assert (E : A ++ join [LF] (map (fun d => link d d) (d :: ds)) ++ [LF] ++ S
                = A ++ anchor [SPACE] d [SPACE] [SPACE] [SPACE] [SPACE] d
                  ++ (match ds with [] => [] | _ :: _ => [LF] end
                      ++ join [LF] (map (fun d => link d d) ds) ++ [LF] ++ S)).
    { rewrite <- link_anchor. destruct ds as [|d' ds]; cbn [map join].
      - reflexivity.
      - now rewrite <- !app_assoc. }
    rewrite E, anchor_read_back by assumption.
    cbn [map]. f_equal. apply IH; auto. now destruct ds.
Qed.

End LinksPattern.

(* ================================================================== *)
(** ** One run *)

Section Run.

Lemma placeholder_length : length placeholder = 21.
Proof. reflexivity. Qed.

Lemma insertPosition_range readmeContent :
  (20 <= insertPosition readmeContent)%Z.
Proof.
  unfold insertPosition, indexOf. rewrite placeholder_length.
  destruct (indexOfFrom_range placeholder readmeContent (i := 0)); lia.
Qed.

(** The text up to and including the first marker. *)
Lemma marker_split readmeContent :
  includes readmeContent placeholder = true ->
  exists pre post,
    readmeContent = pre ++ placeholder ++ post /\
    indexOf readmeContent placeholder = Z.of_nat (length pre) /\
    slice0 readmeContent (insertPosition readmeContent) = pre ++ placeholder.
Proof.
  intros H.
  assert (Hi : indexOf readmeContent placeholder <> (-1)%Z).
  { intros E. apply indexOf_absent in E. congruence. }
  unfold indexOf in Hi.
  destruct (indexOfFrom_found placeholder readmeContent (i := 0) ltac:(lia) Hi)
    as (pre & post & E & Ei).
  exists pre, post. split; [exact E|]. split; [exact Ei|].
  unfold insertPosition, indexOf. rewrite Ei, E.
  rewrite app_assoc.
  replace (0 + Z.of_nat (length pre) + Z.of_nat (length placeholder))%Z
    with (Z.of_nat (length (pre ++ placeholder)))
    by (rewrite length_app; lia).
  apply slice0_prefix.
Qed.

Lemma updateReadme_ok fs readmeContent entries folderLinks readmeSections :
  readmeFile fs = Some readmeContent -> projectDir fs = Some entries ->
  forEach entries (existingLinks readmeContent, existingSections readmeContent)
  = Ok (folderLinks, readmeSections) ->
  updateReadme fs
  = Ok (writeFileSync fs (updatedContent readmeContent folderLinks readmeSections)).
Proof.
  intros Hr Hd Hf. unfold updateReadme, readdirSync. rewrite Hr, Hd. cbn [readFileSync bind].
  destruct (Z.eqb_spec (insertPosition readmeContent) (-1)) as [E|_].
  - pose proof (insertPosition_range readmeContent). lia.
  - rewrite Hf. reflexivity.
Qed.

(** Without the marker the insertion index is 20: the first 20
    characters of the README are kept, and the run goes on. *)
Lemma missing_marker_run fs readmeContent entries folderLinks readmeSections :
  readmeFile fs = Some readmeContent -> projectDir fs = Some entries ->
  includes readmeContent placeholder = false ->
  forEach entries (existingLinks readmeContent, existingSections readmeContent)
  = Ok (folderLinks, readmeSections) ->
  updateReadme fs
  = Ok (writeFileSync fs
          (firstn 20 readmeContent ++ [LF] ++ join [LF] folderLinks
           ++ [LF] ++ join [LF] readmeSections)).
Proof.
  intros Hr Hd Hm Hf. rewrite (updateReadme_ok _ Hr Hd Hf).
  unfold updatedContent, insertPosition.
  apply indexOf_absent in Hm. rewrite Hm, placeholder_length.
  replace (slice0 readmeContent (-1 + Z.of_nat 21)) with (firstn 20 readmeContent);
    [reflexivity|].
  unfold slice0. change (-1 + Z.of_nat 21)%Z with 20%Z.
  change (20 <? 0)%Z with false. cbv iota.
  destruct (Z.min_spec 20 (Z.of_nat (length readmeContent))) as [[Hlt E]|[Hge E]];
    rewrite E.
  - reflexivity.
  - rewrite Nat2Z.id, firstn_all. apply firstn_all2. lia.
Qed.

(** The layout of the text written, when the marker is there. *)
Lemma written_layout fs readmeContent entries folderLinks readmeSections :
  readmeFile fs = Some readmeContent -> projectDir fs = Some entries ->
  includes readmeContent placeholder = true ->
  forEach entries (existingLinks readmeContent, existingSections readmeContent)
  = Ok (folderLinks, readmeSections) ->
  exists pre post,
    readmeContent = pre ++ placeholder ++ post /\
    indexOf readmeContent placeholder = Z.of_nat (length pre) /\
    updateReadme fs
    = Ok (writeFileSync fs
            (pre ++ placeholder ++ [LF] ++ join [LF] folderLinks
             ++ [LF] ++ join [LF] readmeSections)).
Proof.
  intros Hr Hd Hm Hf.
  destruct (marker_split _ Hm) as (pre & post & E & Ei & Es).
  exists pre, post. split; [exact E|]. split; [exact Ei|].
  rewrite (updateReadme_ok _ Hr Hd Hf). unfold updatedContent.
  now rewrite Es, <- !app_assoc.
Qed.

Lemma forEach_no_directory entries st :
  (forall e, In e entries -> isDirectory e = false) -> forEach entries st = Ok st.
Proof.
  induction entries as [|e entries IH]; intros H; [reflexivity|].
  cbn [forEach]. unfold visit. rewrite (H e (or_introl eq_refl)). cbn [bind].
  apply IH. intros e' He'. apply H. now right.
Qed.

Lemma fold_addLink_linked ds links :
  (forall d, In d ds -> linked links d = true) ->
  fold_left addLink ds links = links.
Proof.
  induction ds as [|d ds IH]; intros H; [reflexivity|].
  cbn [fold_left]. unfold addLink at 2. rewrite (H d (or_introl eq_refl)).
  cbn [negb]. apply IH. intros d' Hd'. apply H. now right.
Qed.

Lemma app_inv_length (A : Type) (a a' b b' : list A) :
  length a = length a' -> a ++ b = a' ++ b' -> a = a'.
Proof.
  revert a'; induction a as [|x a IH]; intros [|x' a'] Hl E; try discriminate.
  - reflexivity.
  - cbn in *. injection E as -> E. f_equal. apply IH; [lia | exact E].
Qed.

Lemma link_inj d d' : link d d = link d' d' -> d = d'.
Proof.
  intros E. pose proof (f_equal (@length _) E) as El.
  unfold link in E, El. repeat (rewrite length_app in El || cbn [length] in El).
  cbn in E. injection E as E.
  apply app_inv_length in E; [exact E | lia].
Qed.

Lemma NoDup_links ds : NoDup ds -> NoDup (map (fun d => link d d) ds).
Proof.
  induction 1 as [|d ds Hin Hnd IH]; cbn; constructor; [|exact IH].
  intros H. apply in_map_iff in H as (d' & E & Hd'). apply link_inj in E.
  now subst d'.
Qed.

Lemma linked_in links d :
  In (link d d) links -> linked links d = true.
Proof.
  intros H. unfold linked, some. apply existsb_exists.
  exists (link d d). split; [exact H | apply link_includes_dir].
Qed.

Lemma trimEnd_length s : length (trimEnd s) <= length s.
Proof.
  unfold trimEnd. rewrite length_rev. rewrite <- (length_rev s).
  induction (rev s) as [|c r IH]; cbn; [lia|].
  destruct (isSpace c); cbn; lia.
Qed.

(** A string that [trim] leaves alone does not start with white space. *)
Lemma trim_fixed_stops s : trim s = s -> stops isSpace s.
Proof.
  destruct s as [|c s]; [easy|]. cbn [stops]. unfold trim, trimStart. cbn [dropWhile].
  destruct (isSpace c); [|reflexivity]. intros E.
  pose proof (trimEnd_length (dropWhile isSpace s)) as H1. rewrite E in H1.
  assert (H2 : length (dropWhile isSpace s) <= length s).
  { clear. induction s as [|x s IH]; cbn; [lia|]. destruct (isSpace x); cbn; lia. }
  cbn in H1. lia.
Qed.

(** Every match of the two patterns is at least one character long. *)
Lemma linksRegex_nonempty s caps len :
  matchHere existingLinksRegex s = Some (caps, len) -> 1 <= len.
Proof.
  intros H. apply links_match_inv in H
    as (w1 & n & w2 & w3 & w4 & w5 & t & rest & _ & _ & _ & _ & _ & _ & _ & _ & _ & _ & _ & ->).
  unfold anchor. rewrite length_app. cbn. lia.
Qed.

Lemma sectionsRegex_nonempty s caps len :
  matchHere existingSectionsRegex s = Some (caps, len) -> 1 <= len.
Proof.
  intros H. apply sections_match_inv in H
    as (w & t & b & rest & -> & _ & _ & _ & _ & _ & -> & _).
  rewrite !length_app. change (length (lit "###")) with 3. lia.
Qed.

End Run.

(* ================================================================== *)
(** ** The first marker *)

Unset Implicit Arguments.

Section Marker.

Lemma startsWith_long (p u x : jsstring) :
  length p <= length u -> startsWith p (u ++ x) = startsWith p u.
Proof.
  revert u; induction p as [|a p IH]; intros u H; [reflexivity|].
  destruct u as [|b u]; [cbn in H; lia|].
  cbn [app startsWith]. rewrite IH; [reflexivity | cbn in H; lia].
Qed.

(** The first occurrence does not depend on what follows it. *)
Lemma indexOfFrom_first (p pre post post' : jsstring) (i : Z) :
  indexOfFrom p (pre ++ p ++ post) i = (i + Z.of_nat (length pre))%Z ->
  indexOfFrom p (pre ++ p ++ post') i = (i + Z.of_nat (length pre))%Z.
Proof.
  revert i; induction pre as [|c pre IH]; intros i H.
  - cbn [app length]. destruct (p ++ post') eqn:E; cbn [indexOfFrom].
    + destruct p; [cbn; lia | discriminate].
    + rewrite <- E, startsWith_app. cbn. lia.
  - cbn [app indexOfFrom] in H |- *.
    replace (c :: pre ++ p ++ post) with ((c :: pre ++ p) ++ post) in H
      by (cbn [app]; now rewrite <- app_assoc).
    replace (c :: pre ++ p ++ post') with ((c :: pre ++ p) ++ post')
      by (cbn [app]; now rewrite <- app_assoc).
    rewrite startsWith_long in H |- * by (cbn [length]; rewrite length_app; lia).
    destruct (startsWith p (c :: pre ++ p)).
    + cbn [length] in H. lia.
    + rewrite (IH (i + 1)%Z); cbn [length] in *; lia.
Qed.

Lemma marker_position (pre post post' : jsstring) :
  indexOf (pre ++ placeholder ++ post) placeholder = Z.of_nat (length pre) ->
  indexOf (pre ++ placeholder ++ post') placeholder = Z.of_nat (length pre).
Proof. unfold indexOf. apply (indexOfFrom_first placeholder pre post post' 0). Qed.

Lemma slice_at_marker (pre post : jsstring) :
  indexOf (pre ++ placeholder ++ post) placeholder = Z.of_nat (length pre) ->
  slice0 (pre ++ placeholder ++ post) (insertPosition (pre ++ placeholder ++ post))
  = pre ++ placeholder.
Proof.
  intros H. unfold insertPosition. rewrite H, app_assoc.
  replace (Z.of_nat (length pre) + Z.of_nat (length placeholder))%Z
    with (Z.of_nat (length (pre ++ placeholder)))
    by (rewrite length_app; lia).
  apply slice0_prefix.
Qed.

End Marker.

(* ================================================================== *)
(** ** The properties of the specification *)

Unset Implicit Arguments.

(** *** The marker check *)

(** C3.  For every README text the insertion index, the index of the
    marker plus the length of the marker, is at least 20, and it is
    exactly 20 when the marker is absent.  The test against -1 is
    therefore never true: [updateReadme] never throws its own error,
    and whenever the README, the directory and the READMEs of the
    directories can be read, the write is performed. *)
Theorem C3_placeholder_check_unreachable (readmeContent : jsstring) :
  (0 <= insertPosition readmeContent)%Z /\
  (includes readmeContent placeholder = false ->
   insertPosition readmeContent = 20%Z) /\
  (insertPosition readmeContent =? -1)%Z = false /\
  forall fs, readmeFile fs = Some readmeContent ->
    updateReadme fs <> Throw PlaceholderNotFound /\
    forall entries, projectDir fs = Some entries -> readable entries ->
      exists folderLinks readmeSections,
        updateReadme fs
        = Ok (writeFileSync fs
                (updatedContent readmeContent folderLinks readmeSections)).
Proof.
  pose proof (insertPosition_range readmeContent) as Hr.
  split; [lia|]. split.
  { intros H. apply indexOf_absent in H. unfold insertPosition.
    rewrite H, placeholder_length. reflexivity. }
  assert (Hne : (insertPosition readmeContent =? -1)%Z = false)
    by (apply Z.eqb_neq; lia).
  split; [exact Hne|].
  intros fs Hfs. split.
  - unfold updateReadme. rewrite Hfs. cbn [readFileSync bind]. rewrite Hne.
    destruct (readdirSync fs) as [entries|e] eqn:Ed; cbn [bind].
    + destruct (forEach entries _) as [st|e] eqn:Ef; cbn [bind]; [discriminate|].
      apply forEach_throws in Ef. subst e. discriminate.
    + unfold readdirSync in Ed. destruct (projectDir fs); [discriminate|].
      inversion Ed. discriminate.
  - intros entries Hd Hre.
    destruct (forEach_readable
                (existingLinks readmeContent, existingSections readmeContent) Hre)
      as [[folderLinks readmeSections] Hf].
    exists folderLinks, readmeSections. now apply updateReadme_ok with entries.
Qed.

Lemma C3_witness :
  insertPosition (lit "no marker here") = 20%Z /\
  exists folderLinks readmeSections,
    updateReadme (project (lit "no marker here") [dir (lit "notes") NoReadme])
    = Ok (writeFileSync (project (lit "no marker here") [dir (lit "notes") NoReadme])
            (updatedContent (lit "no marker here") folderLinks readmeSections)).
Proof.
  destruct (C3_placeholder_check_unreachable (lit "no marker here"))
    as (_ & H20 & _ & Hrun).
  split; [apply H20; reflexivity|].
  destruct (Hrun (project (lit "no marker here") [dir (lit "notes") NoReadme])
              eq_refl) as [_ Hw].
  apply (Hw [dir (lit "notes") NoReadme] eq_refl).
  intros e [<-|[]] _. discriminate.
Defined.

(** C1.  A README without the marker: no error is raised and the file
    is overwritten.  The insertion index is 20, so the first 20
    characters of the README are kept and the generated links follow. *)
Theorem C1_missing_marker_overwrites :
  includes (lit "# Notes on JavaScript, one page a day") placeholder = false /\
  updateReadme (project (lit "# Notes on JavaScript, one page a day")
                  [dir (lit "javaScript") NoReadme])
  = Ok (project (lit "# Notes on JavaScrip" ++ [LF]
                 ++ link (lit "javaScript") (lit "javaScript") ++ [LF])
          [dir (lit "javaScript") NoReadme]).
Proof. split; reflexivity. Qed.

(** *** The layout of the output *)

(** C7, as stated, fails: what followed the marker is not all
    discarded.  The two patterns are run over the whole README, so the
    links and the sections that follow the marker are collected and
    written again.  On the README below, in the script's own format, with
    no directory to add, the text written is the text read: everything
    that followed the marker is there again. *)
Lemma C7_counterexample :
  updateReadme
    (project
       (lit "# Notes" ++ [LF] ++ placeholder ++ [LF]
        ++ link (lit "javaScript") (lit "JavaScript notes") ++ [LF]
        ++ lit "### About" ++ [LF] ++ lit "---" ++ [LF] ++ lit "kept") [])
  = Ok (project
          (lit "# Notes" ++ [LF] ++ placeholder ++ [LF]
           ++ link (lit "javaScript") (lit "JavaScript notes") ++ [LF]
           ++ lit "### About" ++ [LF] ++ lit "---" ++ [LF] ++ lit "kept") []) /\
  includes
    (lit "# Notes" ++ [LF] ++ placeholder ++ [LF]
     ++ link (lit "javaScript") (lit "JavaScript notes") ++ [LF]
     ++ lit "### About" ++ [LF] ++ lit "---" ++ [LF] ++ lit "kept")
    (placeholder ++ [LF]
     ++ link (lit "javaScript") (lit "JavaScript notes") ++ [LF]
     ++ lit "### About" ++ [LF] ++ lit "---" ++ [LF] ++ lit "kept")
  = true.
Proof. split; reflexivity. Qed.

(** C7, amended.  When the README contains the marker, the text written
    is the README up to and including the first marker, a line break, the
    links joined by line breaks, a line break and the sections joined by
    line breaks.  The text [post] that followed the marker is not copied
    as it stands, but it is not all discarded either: the links written
    begin with the links read back from the whole README and the sections
    written begin with the sections read back from the whole README, those
    found after the marker included.  The text after the marker counts
    only through these two lists: any other text there from which the same
    links and sections are read back gives the same text written. *)
Theorem C7_updated_content_layout
    (fs : FileSystem) (readmeContent : jsstring) (entries : list Dirent)
    (folderLinks readmeSections : list jsstring) :
  readmeFile fs = Some readmeContent -> projectDir fs = Some entries ->
  includes readmeContent placeholder = true ->
  forEach entries (existingLinks readmeContent, existingSections readmeContent)
  = Ok (folderLinks, readmeSections) ->
  exists pre post addedLinks addedSections,
    readmeContent = pre ++ placeholder ++ post /\
    indexOf readmeContent placeholder = Z.of_nat (length pre) /\
    folderLinks = existingLinks readmeContent ++ addedLinks /\
    readmeSections = existingSections readmeContent ++ addedSections /\
    updateReadme fs
    = Ok (writeFileSync fs
            (pre ++ placeholder ++ [LF] ++ join [LF] folderLinks
             ++ [LF] ++ join [LF] readmeSections)) /\
    forall post',
      existingLinks (pre ++ placeholder ++ post') = existingLinks readmeContent ->
      existingSections (pre ++ placeholder ++ post')
      = existingSections readmeContent ->
      updateReadme {| readmeFile := Some (pre ++ placeholder ++ post');
                      projectDir := projectDir fs |}
      = Ok (writeFileSync fs
              (pre ++ placeholder ++ [LF] ++ join [LF] folderLinks
               ++ [LF] ++ join [LF] readmeSections)).
Proof.
  intros Hr Hd Hm Hf.
  destruct (@written_layout fs _ _ _ _ Hr Hd Hm Hf) as (pre & post & E & Ei & Hu).
  pose proof (forEach_links _ _ _ Hf) as El.
  destruct (fold_addLink (directories entries) (existingLinks readmeContent))
    as (addedLinks & El' & _).
  rewrite <- El in El'.
  destruct (forEach_sections _ _ _ Hf) as (addedSections & Es & _).
  exists pre, post, (map (fun d => link d d) addedLinks), addedSections.
  split; [exact E|]. split; [exact Ei|]. split; [exact El'|].
  split; [exact Es|]. split; [exact Hu|].
  intros post' Hl' Hs'.
  assert (Ei' : indexOf (pre ++ placeholder ++ post') placeholder
                = Z.of_nat (length pre)).
  { apply (marker_position pre post). now rewrite <- E. }
  eapply eq_trans.
  { eapply updateReadme_ok; [reflexivity | exact Hd |].
    rewrite Hl', Hs'. exact Hf. }
  unfold updatedContent. rewrite (slice_at_marker pre post' Ei').
  unfold writeFileSync. cbn [projectDir]. now rewrite <- app_assoc.
Qed.

Lemma C7_witness :
  exists pre post,
    sampleReadme = pre ++ placeholder ++ post /\
    indexOf sampleReadme placeholder = Z.of_nat (length pre) /\
    updateReadme (project sampleReadme [dir (lit "javaScript") NoReadme])
    = Ok (writeFileSync (project sampleReadme [dir (lit "javaScript") NoReadme])
            (pre ++ placeholder ++ [LF]
             ++ join [LF] [link (lit "javaScript") (lit "javaScript")]
             ++ [LF]
             ++ join [LF]
                  [sectionText (lit "Table of Contents")
                     (placeholder ++ [LF]
                      ++ lit "- <a href=" ++ [QUOT] ++ lit "./javaScript/"
                      ++ [QUOT] ++ lit " >javaScript</a></br>")])).
Proof.
  destruct (C7_updated_content_layout
              (project sampleReadme [dir (lit "javaScript") NoReadme])
              sampleReadme [dir (lit "javaScript") NoReadme]
              [link (lit "javaScript") (lit "javaScript")]
              [sectionText (lit "Table of Contents")
                 (placeholder ++ [LF]
                  ++ lit "- <a href=" ++ [QUOT] ++ lit "./javaScript/"
                  ++ [QUOT] ++ lit " >javaScript</a></br>")]
              eq_refl eq_refl eq_refl eq_refl)
    as (pre & post & addedLinks & addedSections & E & Ei & _ & _ & Hu & _).
  exists pre, post. split; [exact E|]. split; [exact Ei | exact Hu].
Defined.

(** C6, as stated, fails in a project without entries.  When the README
    is the marker alone, the text written ends with two line breaks, the
    one before the (empty) list of links and the one before the (empty)
    list of sections, not with one.  When the README lists a link after
    the marker, that link is read back and written again: the output is
    not the text up to the marker. *)
Lemma C6_counterexample :
  (updateReadme (project placeholder [])
   = Ok (project (placeholder ++ [LF; LF]) []) /\
   updateReadme (project placeholder [])
   <> Ok (project (placeholder ++ [LF]) [])) /\
  updateReadme (project (placeholder ++ [LF] ++ link (lit "old") (lit "old")) [])
  = Ok (project (placeholder ++ [LF] ++ link (lit "old") (lit "old") ++ [LF]) []).
Proof. split; [split; [reflexivity | discriminate] | reflexivity]. Qed.

(** C6, amended.  In a project without subdirectories and with a README
    that contains the marker, the loop adds nothing: the text written is
    the README up to and including the first marker, a line break, the
    links read back from the README joined by line breaks, a line break
    and the sections read back from the README joined by line breaks.
    When the README holds no such link and no such section, that is the
    text up to and including the marker followed by two line breaks. *)
Theorem C6_no_subdirectories
    (fs : FileSystem) (readmeContent : jsstring) (entries : list Dirent) :
  readmeFile fs = Some readmeContent -> projectDir fs = Some entries ->
  includes readmeContent placeholder = true ->
  (forall e, In e entries -> isDirectory e = false) ->
  exists pre post,
    readmeContent = pre ++ placeholder ++ post /\
    indexOf readmeContent placeholder = Z.of_nat (length pre) /\
    updateReadme fs
    = Ok (writeFileSync fs
            (pre ++ placeholder ++ [LF]
             ++ join [LF] (existingLinks readmeContent) ++ [LF]
             ++ join [LF] (existingSections readmeContent))) /\
    (existingLinks readmeContent = [] -> existingSections readmeContent = [] ->
     updateReadme fs = Ok (writeFileSync fs (pre ++ placeholder ++ [LF; LF]))).
Proof.
  intros Hr Hd Hm Hnone.
  pose proof (@forEach_no_directory entries
                (existingLinks readmeContent, existingSections readmeContent) Hnone)
    as Hf.
  destruct (@written_layout fs _ _ _ _ Hr Hd Hm Hf) as (pre & post & E & Ei & Hu).
  exists pre, post. split; [exact E|]. split; [exact Ei|]. split; [exact Hu|].
  intros El Es. rewrite Hu, El, Es. reflexivity.
Qed.

Lemma C6_witness :
  exists pre post,
    sampleReadme = pre ++ placeholder ++ post /\
    indexOf sampleReadme placeholder = Z.of_nat (length pre) /\
    updateReadme (project sampleReadme [])
    = Ok (writeFileSync (project sampleReadme [])
            (pre ++ placeholder ++ [LF]
             ++ join [LF] (existingLinks sampleReadme) ++ [LF]
             ++ join [LF] (existingSections sampleReadme))) /\
    (existingLinks sampleReadme = [] -> existingSections sampleReadme = [] ->
     updateReadme (project sampleReadme [])
     = Ok (writeFileSync (project sampleReadme []) (pre ++ placeholder ++ [LF; LF]))).
Proof.
  apply (C6_no_subdirectories (project sampleReadme []) sampleReadme []);
    try reflexivity.
  intros e [].
Defined.

(** *** Links *)

(** C8.  The links that the loop adds come after the links it started
    from, and each of them is the template filled with the name of a
    directory of the project, in the [href] and as the title; they come
    in the order of the directory listing. *)
Theorem C8_new_link_format
    (entries : list Dirent)
    (folderLinks readmeSections folderLinks' readmeSections' : list jsstring) :
  forEach entries (folderLinks, readmeSections)
  = Ok (folderLinks', readmeSections') ->
  exists added,
    subsequence added (directories entries) /\
    folderLinks'
    = folderLinks
      ++ map (fun dirName =>
                lit "<a href=" ++ [QUOT] ++ lit "./" ++ dirName ++ lit "/"
                ++ [QUOT] ++ lit " style=" ++ [QUOT]
                ++ lit "font-weight: bold; margin-bottom:200px;" ++ [QUOT]
                ++ lit ">" ++ [GLYPH] ++ lit " " ++ dirName ++ lit "</a></br>")
          added.
Proof.
  intros H. apply forEach_links in H. subst folderLinks'.
  destruct (fold_addLink (directories entries) folderLinks)
    as (added & E & Hsub & _).
  exists added. split; [exact Hsub | exact E].
Qed.

Lemma C8_witness :
  exists added,
    subsequence added
      (directories [dir (lit "javaScript") NoReadme; dir (lit "nextJs") NoReadme]) /\
    [link (lit "javaScript") (lit "javaScript"); link (lit "nextJs") (lit "nextJs")]
    = [link (lit "javaScript") (lit "javaScript")]
      ++ map (fun dirName =>
                lit "<a href=" ++ [QUOT] ++ lit "./" ++ dirName ++ lit "/"
                ++ [QUOT] ++ lit " style=" ++ [QUOT]
                ++ lit "font-weight: bold; margin-bottom:200px;" ++ [QUOT]
                ++ lit ">" ++ [GLYPH] ++ lit " " ++ dirName ++ lit "</a></br>")
          added.
Proof.
  apply (C8_new_link_format
           [dir (lit "javaScript") NoReadme; dir (lit "nextJs") NoReadme]
           [link (lit "javaScript") (lit "javaScript")] [] _ []).
  reflexivity.
Defined.

(** C5, as stated, fails: the links read back from the README are all
    kept, so a README that lists a directory twice keeps both links. *)
Lemma C5_counterexample :
  updateReadme
    (project (placeholder ++ [LF] ++ link (lit "a") (lit "a")
              ++ [LF] ++ link (lit "a") (lit "a"))
       [dir (lit "a") NoReadme])
  = Ok (project (placeholder ++ [LF] ++ link (lit "a") (lit "a")
                 ++ [LF] ++ link (lit "a") (lit "a") ++ [LF])
          [dir (lit "a") NoReadme]) /\
  forEach [dir (lit "a") NoReadme]
    (existingLinks (placeholder ++ [LF] ++ link (lit "a") (lit "a")
                    ++ [LF] ++ link (lit "a") (lit "a")), [])
  = Ok ([link (lit "a") (lit "a"); link (lit "a") (lit "a")], []) /\
  ~ NoDup [link (lit "a") (lit "a"); link (lit "a") (lit "a")].
Proof.
  split; [reflexivity|]. split; [reflexivity|].
  intros H. inversion H as [|x l Hin _]; subst. apply Hin. now left.
Qed.

(** C5, amended.  The links of the text written are the links read back
    from the README, all of them and in document order, followed by one
    new link for each directory that no link collected so far mentions
    (a link mentions a directory when it contains [./name/]), in the
    order of the directory listing and without repetition; afterwards
    every directory is mentioned by a link.  Duplicates can only come
    from the README: if the links read back are pairwise distinct, so are
    the links written.  On a second run on the same tree, when the links
    read back from the first output are the links the first run wrote
    (stable formatting), no link is added: the second run ends with the
    same list of links.  The formatting is stable in particular when the
    README held no link, neither the text kept before the marker nor the
    sections written hold a [<a], and the names of the directories are
    plain. *)
Theorem C5_links
    (fs : FileSystem) (readmeContent : jsstring) (entries : list Dirent)
    (folderLinks readmeSections : list jsstring) :
  readmeFile fs = Some readmeContent -> projectDir fs = Some entries ->
  forEach entries (existingLinks readmeContent, existingSections readmeContent)
  = Ok (folderLinks, readmeSections) ->
  (exists added,
     folderLinks = existingLinks readmeContent ++ map (fun d => link d d) added /\
     subsequence added (directories entries) /\
     NoDup added /\
     forall d, In d added -> linked (existingLinks readmeContent) d = false) /\
  (forall d, In d (directories entries) -> linked folderLinks d = true) /\
  (NoDup (existingLinks readmeContent) -> NoDup folderLinks) /\
  (updateReadme fs
   = Ok (writeFileSync fs (updatedContent readmeContent folderLinks readmeSections)) /\
   (existingLinks (updatedContent readmeContent folderLinks readmeSections)
    = folderLinks ->
    exists readmeSections2,
      forEach entries
        (existingLinks (updatedContent readmeContent folderLinks readmeSections),
         existingSections (updatedContent readmeContent folderLinks readmeSections))
      = Ok (folderLinks, readmeSections2)) /\
   (existingLinks readmeContent = [] ->
    includes (slice0 readmeContent (insertPosition readmeContent)) (lit "<a")
    = false ->
    includes (join [LF] readmeSections) (lit "<a") = false ->
    (forall d, In d (directories entries) -> plainName d) ->
    existingLinks (updatedContent readmeContent folderLinks readmeSections)
    = folderLinks)).
Proof.
  intros Hr Hd Hf.
  pose proof (forEach_links _ _ _ Hf) as El.
  destruct (fold_addLink (directories entries) (existingLinks readmeContent))
    as (added & E & Hsub & Hnd & Hnew & Hall & _).
  rewrite <- El in E, Hall.
  split; [now exists added|]. split; [exact Hall|]. split.
  - intros Hex. rewrite E. apply NoDup_app; [exact Hex | | ].
    + now apply NoDup_links.
    + intros x Hx Hx'. apply in_map_iff in Hx' as (d & <- & Hd').
      apply linked_in in Hx. rewrite (Hnew d Hd') in Hx. discriminate.
  - split; [now apply updateReadme_ok with entries|]. split.
    2:{ intros Hnone Hpre Hsec Hplain. rewrite Hnone in E. cbn [app] in E.
        unfold updatedContent. rewrite E.
        replace (slice0 readmeContent (insertPosition readmeContent) ++ [LF]
                 ++ join [LF] (map (fun d => link d d) added) ++ [LF]
                 ++ join [LF] readmeSections)
          with ((slice0 readmeContent (insertPosition readmeContent) ++ [LF])
                ++ join [LF] (map (fun d => link d d) added) ++ [LF]
                ++ join [LF] readmeSections)
          by now rewrite <- !app_assoc.
        apply links_all_read_back; auto.
        - now apply (includes_anchor_sep _ []).
        - intros d Hd'. apply Hplain. eapply subsequence_in; eauto. }
    intros Hstable.
    pose proof (forEach_succeeds_readable _ _ Hf) as Hre.
    destruct (@forEach_readable entries
                (existingLinks (updatedContent readmeContent folderLinks readmeSections),
                 existingSections (updatedContent readmeContent folderLinks readmeSections))
                Hre) as [[links2 sections2] Hf2].
    exists sections2. rewrite Hf2. f_equal. f_equal.
    apply forEach_links in Hf2. rewrite Hf2, Hstable.
    now apply fold_addLink_linked.
Qed.

Lemma C5_witness :
  exists readmeSections2,
    forEach [dir (lit "javaScript") NoReadme; dir (lit "nextJs") NoReadme]
      (existingLinks
         (updatedContent placeholder
            [link (lit "javaScript") (lit "javaScript");
             link (lit "nextJs") (lit "nextJs")] []),
       existingSections
         (updatedContent placeholder
            [link (lit "javaScript") (lit "javaScript");
             link (lit "nextJs") (lit "nextJs")] []))
    = Ok ([link (lit "javaScript") (lit "javaScript");
           link (lit "nextJs") (lit "nextJs")], readmeSections2).
Proof.
  destruct (C5_links
              (project placeholder
                 [dir (lit "javaScript") NoReadme; dir (lit "nextJs") NoReadme])
              placeholder
              [dir (lit "javaScript") NoReadme; dir (lit "nextJs") NoReadme]
              [link (lit "javaScript") (lit "javaScript");
               link (lit "nextJs") (lit "nextJs")] []
              eq_refl eq_refl eq_refl) as (_ & _ & _ & _ & H & _).
  apply H. reflexivity.
Defined.

(** *** Running twice *)

(** C2.  A README that is the marker alone, in a project with one
    directory [a] whose README.md reads [Hello].  The first run writes
    the section as the template renders it, between a line break and a
    line break followed by twenty spaces; the second run reads it back
    and writes it without them.  The second output differs from its
    input. *)
Theorem C2_second_run_rewrites :
  updateReadme (project placeholder [dir (lit "a") (ReadmeFile (lit "Hello"))])
  = Ok (project
          (placeholder ++ [LF] ++ link (lit "a") (lit "a") ++ [LF]
           ++ [LF] ++ lit "### a" ++ [LF] ++ lit "---" ++ [LF] ++ lit "Hello"
           ++ [LF] ++ lit "                    ")
          [dir (lit "a") (ReadmeFile (lit "Hello"))]) /\
  updateReadme
    (project
       (placeholder ++ [LF] ++ link (lit "a") (lit "a") ++ [LF]
        ++ [LF] ++ lit "### a" ++ [LF] ++ lit "---" ++ [LF] ++ lit "Hello"
        ++ [LF] ++ lit "                    ")
       [dir (lit "a") (ReadmeFile (lit "Hello"))])
  = Ok (project
          (placeholder ++ [LF] ++ link (lit "a") (lit "a") ++ [LF]
           ++ lit "### a" ++ [LF] ++ lit "---" ++ [LF] ++ lit "Hello")
          [dir (lit "a") (ReadmeFile (lit "Hello"))]) /\
  placeholder ++ [LF] ++ link (lit "a") (lit "a") ++ [LF]
  ++ lit "### a" ++ [LF] ++ lit "---" ++ [LF] ++ lit "Hello"
  <> placeholder ++ [LF] ++ link (lit "a") (lit "a") ++ [LF]
     ++ [LF] ++ lit "### a" ++ [LF] ++ lit "---" ++ [LF] ++ lit "Hello"
     ++ [LF] ++ lit "                    ".
Proof. split; [reflexivity|]. split; [reflexivity | discriminate]. Qed.

(** The same on the layout of the repository's own README, where the
    marker stands under a heading and a separator line: each run reads
    the heading, the marker and what follows as a section and writes it
    after the marker once more, so the README grows at every run. *)
Lemma repository_readme_grows :
  exists r1 r2 r3,
    updateReadme (project sampleReadme [dir (lit "javaScript") NoReadme])
    = Ok (project r1 [dir (lit "javaScript") NoReadme]) /\
    updateReadme (project r1 [dir (lit "javaScript") NoReadme])
    = Ok (project r2 [dir (lit "javaScript") NoReadme]) /\
    updateReadme (project r2 [dir (lit "javaScript") NoReadme])
    = Ok (project r3 [dir (lit "javaScript") NoReadme]) /\
    (length sampleReadme, length r1, length r2, length r3)
    = (112, 254, 396, 632) /\
    existingLinks r2
    = [link (lit "javaScript") (lit "javaScript");
       link (lit "javaScript") (lit "javaScript")].
Proof.
  do 3 eexists. split; [reflexivity|]. split; [reflexivity|].
  split; [reflexivity|]. split; reflexivity.
Qed.

(** *** Sections *)

(** C4.  The script looks for the section of a directory before it
    adds one, but for a directory whose name ends with a space it does
    not recognise the section it has written itself.  Take the directory
    [a ] with a README.md that reads [Hello], and a README that is the
    marker.  The first run appends the section [### a \n---\nHello], in
    the white space of the template.  The second run reads that section
    back with its title trimmed, [### a\n---\nHello], does not find the
    text [### a \n---\nHello] in it, and appends the section of the
    directory again, although the README.md has not changed: the README
    then holds two sections for the directory. *)
Theorem C4_section_appended_twice :
  updateReadme (project placeholder [dir (lit "a ") (ReadmeFile (lit "Hello"))])
  = Ok (project
          (placeholder ++ [LF] ++ link (lit "a ") (lit "a ") ++ [LF]
           ++ [LF] ++ lit "### a " ++ [LF] ++ lit "---" ++ [LF] ++ lit "Hello"
           ++ [LF] ++ lit "                    ")
          [dir (lit "a ") (ReadmeFile (lit "Hello"))]) /\
  existingSections
    (placeholder ++ [LF] ++ link (lit "a ") (lit "a ") ++ [LF]
     ++ [LF] ++ lit "### a " ++ [LF] ++ lit "---" ++ [LF] ++ lit "Hello"
     ++ [LF] ++ lit "                    ")
  = [lit "### a" ++ [LF] ++ lit "---" ++ [LF] ++ lit "Hello"] /\
  recorded [lit "### a" ++ [LF] ++ lit "---" ++ [LF] ++ lit "Hello"]
    (lit "a ") (lit "Hello") = false /\
  updateReadme
    (project
       (placeholder ++ [LF] ++ link (lit "a ") (lit "a ") ++ [LF]
        ++ [LF] ++ lit "### a " ++ [LF] ++ lit "---" ++ [LF] ++ lit "Hello"
        ++ [LF] ++ lit "                    ")
       [dir (lit "a ") (ReadmeFile (lit "Hello"))])
  = Ok (project
          (placeholder ++ [LF] ++ link (lit "a ") (lit "a ") ++ [LF]
           ++ lit "### a" ++ [LF] ++ lit "---" ++ [LF] ++ lit "Hello" ++ [LF]
           ++ [LF] ++ lit "### a " ++ [LF] ++ lit "---" ++ [LF] ++ lit "Hello"
           ++ [LF] ++ lit "                    ")
          [dir (lit "a ") (ReadmeFile (lit "Hello"))]).
Proof. split; [reflexivity|]. split; [reflexivity|]. split; reflexivity. Qed.

(** C9, as stated, fails for some blocks.  A heading that contains a
    [#] is not read at all, the title group of the pattern being [[^#]+]:
    sitting after the marker, the block is not written again.  A heading
    that is the first line under a separator line is read as part of the
    body of the section above, white space included.  A body that holds a
    separator line is split there: what comes before it joins the title,
    and is trimmed with it. *)
Lemma C9_counterexample :
  (existingSections
     (placeholder ++ [LF] ++ lit "### C# notes" ++ [LF] ++ lit "---" ++ [LF]
      ++ lit "body")
   = [] /\
   updateReadme
     (project
        (placeholder ++ [LF] ++ lit "### C# notes" ++ [LF] ++ lit "---" ++ [LF]
         ++ lit "body") [])
   = Ok (project (placeholder ++ [LF; LF]) [])) /\
  existingSections
    (lit "### A" ++ [LF] ++ lit "---" ++ [LF]
     ++ lit "###  B" ++ [LF] ++ lit "---" ++ [LF] ++ lit "Hello")
  = [sectionText (lit "A")
       (lit "###  B" ++ [LF] ++ lit "---" ++ [LF] ++ lit "Hello")] /\
  existingSections
    (lit "### T" ++ [LF] ++ lit "---" ++ [LF]
     ++ lit "foo " ++ [LF] ++ lit "---" ++ [LF] ++ lit "bar")
  = [sectionText (lit "T" ++ [LF] ++ lit "---" ++ [LF] ++ lit "foo") (lit "bar")].
Proof. split; [split; reflexivity|]. split; reflexivity. Qed.

(** C9, amended.  The sections are looked for in the whole README,
    before the marker as well as after it.  Take any block of the README
    made of a heading line ([###], white space, a heading without [#]), a
    separator line and a body that runs up to the end of the README or to
    the line break before the next [###]; the heading starts a line (and
    is not itself the first line under a separator line), and the body
    holds no separator line of its own.  Wherever the block and the marker
    are, the block is read as a section, its heading and body are
    trimmed, and the section is written after the marker. *)
Theorem C9_sections_scanned_everywhere
    (fs : FileSystem) (readmeContent : jsstring) (entries : list Dirent)
    (folderLinks readmeSections : list jsstring)
    (X w heading body rest : jsstring) :
  readmeFile fs = Some readmeContent -> projectDir fs = Some entries ->
  forEach entries (existingLinks readmeContent, existingSections readmeContent)
  = Ok (folderLinks, readmeSections) ->
  readmeContent = X ++ lit "###" ++ w ++ heading ++ separator ++ body ++ rest ->
  lineStart X ->
  w <> [] -> forallb isSpace w = true ->
  heading <> [] -> stops isSpace heading -> forallb notHash heading = true ->
  includes body nextHeading = false ->
  includes ([LF] ++ body ++ [LF]) separator = false ->
  (rest = [] \/ exists z, rest = nextHeading ++ z) ->
  In (sectionText (trim heading) (trim body)) (existingSections readmeContent) /\
  In (sectionText (trim heading) (trim body)) readmeSections /\
  (includes readmeContent placeholder = true ->
   exists pre post A B,
     readmeContent = pre ++ placeholder ++ post /\
     indexOf readmeContent placeholder = Z.of_nat (length pre) /\
     updateReadme fs
     = Ok (writeFileSync fs
             (pre ++ placeholder ++ A
              ++ sectionText (trim heading) (trim body) ++ B))).
Proof.
  intros Hr Hd Hf E HX Hw Hws Hh Hhs Hhh Hb Hsep Hrest.
  assert (Hin : In (sectionText (trim heading) (trim body))
                  (existingSections readmeContent)).
  { unfold existingSections. rewrite E.
    destruct (@sections_scan_reach X
                (lit "###" ++ w ++ heading ++ separator ++ body ++ rest) 0 HX
                eq_refl ltac:(lia)) as [pre Hpre].
    rewrite Hpre.
    pose proof (@sections_match_block w heading body rest
                  Hw Hws Hh Hhs Hhh Hb Hsep Hrest) as Hm.
    assert (HT : lit "###" ++ w ++ heading ++ separator ++ body ++ rest <> [])
      by discriminate.
    rewrite (execAll_first _ HT Hm), map_app.
    apply in_or_app. right. now left. }
  assert (Hin' : In (sectionText (trim heading) (trim body)) readmeSections).
  { destruct (forEach_sections _ _ _ Hf) as (added & -> & _).
    apply in_or_app. now left. }
  split; [exact Hin|]. split; [exact Hin'|].
  intros Hm.
  destruct (@written_layout fs _ _ _ _ Hr Hd Hm Hf) as (pre & post & Ep & Ei & Hu).
  destruct (in_split _ _ Hin') as (s1 & s2 & Es).
  exists pre, post,
    ([LF] ++ join [LF] folderLinks ++ [LF]
     ++ match s1 with [] => [] | _ => join [LF] s1 ++ [LF] end),
    (match s2 with [] => [] | _ => [LF] ++ join [LF] s2 end).
  split; [exact Ep|]. split; [exact Ei|].
  rewrite Hu, Es, join_app_cons. now rewrite <- !app_assoc.
Qed.

Lemma C9_witness :
  In (sectionText (lit "Table of Contents")
        (placeholder ++ [LF] ++ lit "- <a href=" ++ [QUOT] ++ lit "./javaScript/"
         ++ [QUOT] ++ lit " >javaScript</a></br>"))
     (existingSections sampleReadme) /\
  exists pre post A B,
    sampleReadme = pre ++ placeholder ++ post /\
    indexOf sampleReadme placeholder = Z.of_nat (length pre) /\
    updateReadme (project sampleReadme [dir (lit "javaScript") NoReadme])
    = Ok (writeFileSync (project sampleReadme [dir (lit "javaScript") NoReadme])
            (pre ++ placeholder ++ A
             ++ sectionText (lit "Table of Contents")
                  (placeholder ++ [LF] ++ lit "- <a href=" ++ [QUOT]
                   ++ lit "./javaScript/" ++ [QUOT] ++ lit " >javaScript</a></br>")
             ++ B)).
Proof.
  destruct (C9_sections_scanned_everywhere
              (project sampleReadme [dir (lit "javaScript") NoReadme])
              sampleReadme [dir (lit "javaScript") NoReadme]
              [link (lit "javaScript") (lit "javaScript")]
              [sectionText (lit "Table of Contents")
                 (placeholder ++ [LF] ++ lit "- <a href=" ++ [QUOT]
                  ++ lit "./javaScript/" ++ [QUOT] ++ lit " >javaScript</a></br>")]
              (lit "# daily-learning" ++ [LF; LF]) [SPACE]
              (lit "Table of Contents")
              (placeholder ++ [LF] ++ lit "- <a href=" ++ [QUOT]
               ++ lit "./javaScript/" ++ [QUOT] ++ lit " >javaScript</a></br>")
              []
              eq_refl eq_refl eq_refl eq_refl
              (@lineStart_after (lit "# daily-learning") LF ltac:(discriminate))
              ltac:(discriminate) eq_refl ltac:(discriminate) eq_refl eq_refl
              eq_refl eq_refl (or_introl eq_refl))
    as (H1 & _ & H3).
  split; [exact H1 | apply H3; reflexivity].
Defined.

(** *** Links read back *)

(** C10, as stated, fails: a link written with two spaces after [<a]
    and placed before the marker is copied to the output as it is (the
    text up to the marker is kept), next to its re-rendered form. *)
Lemma C10_counterexample :
  anchor [SPACE; SPACE] (lit "a") [SPACE] [SPACE] [SPACE] [SPACE] (lit "a")
  <> link (lit "a") (lit "a") /\
  updateReadme
    (project
       (anchor [SPACE; SPACE] (lit "a") [SPACE] [SPACE] [SPACE] [SPACE] (lit "a")
        ++ [LF] ++ placeholder) [])
  = Ok (project
          (anchor [SPACE; SPACE] (lit "a") [SPACE] [SPACE] [SPACE] [SPACE] (lit "a")
           ++ [LF] ++ placeholder ++ [LF] ++ link (lit "a") (lit "a") ++ [LF]) []) /\
  includes
    (anchor [SPACE; SPACE] (lit "a") [SPACE] [SPACE] [SPACE] [SPACE] (lit "a")
     ++ [LF] ++ placeholder ++ [LF] ++ link (lit "a") (lit "a") ++ [LF])
    (anchor [SPACE; SPACE] (lit "a") [SPACE] [SPACE] [SPACE] [SPACE] (lit "a"))
  = true.
Proof. split; [discriminate|]. split; reflexivity. Qed.

(** C10, amended.  Every link read back from the README is the template
    filled with the directory name of the [href] and the title of an
    anchor of the README, an anchor in which each space of the template
    may be any run of white space.  Conversely an anchor of that form
    (directory name without double quote, title without [<] and not
    starting with white space) that follows a text without [<a] is read
    back as that template, and the search goes on after it.  The links
    read back open the list of links written.  Only that list is
    normalised: the text before the marker, and the bodies of sections,
    are copied as they are. *)
Theorem C10_links_normalised :
  (forall readmeContent l,
     In l (existingLinks readmeContent) ->
     exists w1 n w2 w3 w4 w5 t,
       spaces w1 /\ spaces w2 /\ spaces w3 /\ spaces w4 /\ spaces w5 /\
       includes readmeContent (anchor w1 n w2 w3 w4 w5 t) = true /\
       l = link n t) /\
  (forall A w1 n w2 w3 w4 w5 t rest,
     includes A (lit "<a") = false ->
     spaces w1 -> spaces w2 -> spaces w3 -> spaces w4 -> spaces w5 ->
     n <> [] -> forallb notQuot n = true ->
     t <> [] -> forallb notLt t = true -> stops isSpace t ->
     existingLinks (A ++ anchor w1 n w2 w3 w4 w5 t ++ rest)
     = link n t :: existingLinks rest) /\
  (forall fs readmeContent entries folderLinks readmeSections,
     readmeFile fs = Some readmeContent -> projectDir fs = Some entries ->
     forEach entries (existingLinks readmeContent, existingSections readmeContent)
     = Ok (folderLinks, readmeSections) ->
     exists added,
       folderLinks = existingLinks readmeContent ++ added /\
       updateReadme fs
       = Ok (writeFileSync fs
               (slice0 readmeContent (insertPosition readmeContent) ++ [LF]
                ++ join [LF] (existingLinks readmeContent ++ added) ++ [LF]
                ++ join [LF] readmeSections))).
Proof.
  split; [|split].
  - intros readmeContent l Hl. unfold existingLinks in Hl.
    apply in_map_iff in Hl as (m & <- & Hm).
    apply execAll_sound in Hm as (a & b & len & -> & Hm).
    apply links_match_inv in Hm
      as (w1 & n & w2 & w3 & w4 & w5 & t & rest & -> & H1 & H2 & H3 & H4 & H5
          & _ & _ & _ & _ & -> & _).
    exists w1, n, w2, w3, w4, w5, t.
    repeat (split; [assumption|]). split; [apply includes_app | reflexivity].
  - intros A w1 n w2 w3 w4 w5 t rest. apply anchor_read_back.
  - intros fs readmeContent entries folderLinks readmeSections Hr Hd Hf.
    pose proof (forEach_links _ _ _ Hf) as El.
    destruct (fold_addLink (directories entries) (existingLinks readmeContent))
      as (added & E & _).
    exists (map (fun d => link d d) added). rewrite <- El in E.
    split; [exact E|]. rewrite <- E. now apply updateReadme_ok with entries.
Qed.

Lemma C10_witness :
  existingLinks
    (lit "- "
     ++ anchor [SPACE; LF] (lit "javaScript") [SPACE; SPACE] [LF] [SPACE]
          [SPACE; SPACE] (lit "JavaScript notes")
     ++ [LF] ++ placeholder)
  = link (lit "javaScript") (lit "JavaScript notes")
    :: existingLinks ([LF] ++ placeholder).
Proof.
  destruct C10_links_normalised as (_ & H & _).
  apply (H (lit "- ") [SPACE; LF] (lit "javaScript") [SPACE; SPACE] [LF] [SPACE]
           [SPACE; SPACE] (lit "JavaScript notes") ([LF] ++ placeholder));
    try reflexivity; try (split; [discriminate | reflexivity]);
    discriminate.
Defined.

(* ================================================================== *)
(** ** Further properties of the script *)

Section LoopFacts.

(** Entries that are not directories leave the state of the loop as it
    is. *)
Lemma forEach_filter entries st :
  forEach entries st = forEach (filter isDirectory entries) st.
Proof.
  revert st; induction entries as [|e entries IH]; intros st; [reflexivity|].
  cbn [filter]. destruct (isDirectory e) eqn:Ed; cbn [forEach]; unfold visit;
    rewrite Ed.
  - destruct (addSection (snd st) (name e) (readme e)); cbn [bind]; auto.
  - cbn [bind]. apply IH.
Qed.

(** After the loop the README.md of every directory is recorded. *)
Lemma forEach_all_recorded entries links sections links' sections' :
  forEach entries (links, sections) = Ok (links', sections') ->
  forall e content,
    In e entries -> isDirectory e = true -> readme e = ReadmeFile content ->
    recorded sections' (name e) (trim content) = true.
Proof.
  revert links sections; induction entries as [|e0 entries IH];
    intros links sections H e content He Hd Hr; [destruct He|].
  cbn [forEach] in H. unfold visit in H.
  destruct (visit (links, sections) e0) as [[l1 s1]|] eqn:Ev;
    unfold visit in Ev; rewrite Ev in H; [|discriminate].
  cbn [bind] in H.
  destruct He as [<-|He]; [|now apply (IH _ _ H e content)].
  rewrite Hd, Hr in Ev. cbn [fst snd] in Ev.
  destruct (forEach_sections _ _ _ H) as (added & -> & _ & Hmono).
  apply Hmono.
  destruct (addSection_cases sections (name e0) content) as [[Hrec Ea]|[Hrec Ea]];
    rewrite Ea in Ev; cbn [bind] in Ev; inversion Ev; subst.
  - rewrite recorded_app. unfold recorded at 2, some. cbn [existsb].
    rewrite readmeSection_includes. now rewrite orb_true_r.
  - exact Hrec.
Qed.

Lemma forEach_added_length entries links sections links' sections' :
  forEach entries (links, sections) = Ok (links', sections') ->
  length sections' <= length sections + length (directories entries).
Proof.
  revert links sections; induction entries as [|e entries IH];
    intros links sections H.
  - cbn in H. inversion H; subst. lia.
  - cbn [forEach] in H. unfold visit in H. unfold directories. cbn [filter].
    destruct (isDirectory e); cbn [bind fst snd map length] in *.
    + destruct (addSection sections (name e) (readme e)) as [s1|] eqn:Ea;
        [|discriminate].
      cbn [bind] in H. apply IH in H. unfold directories in H.
      assert (length s1 <= S (length sections)).
      { destruct (readme e) as [|content|]; cbn in Ea; [inversion Ea; lia| |discriminate].
        destruct (negb _); inversion Ea; subst; rewrite ?length_app; cbn; lia. }
      lia.
    + apply IH in H. exact H.
Qed.

Lemma includes_inside (a t b p : jsstring) :
  includes t p = true -> includes (a ++ t ++ b) p = true.
Proof.
  intros H. apply includes_inv in H as (x & y & ->).
  replace (a ++ (x ++ p ++ y) ++ b) with ((a ++ x) ++ p ++ (y ++ b))
    by now rewrite <- !app_assoc.
  apply includes_app.
Qed.

End LoopFacts.

Unset Implicit Arguments.

(** *** Failures *)

(** X1.  A failed read stops the run before anything is written.
    When the README cannot be read, or the directory cannot be listed, or
    some directory holds a README.md that exists and cannot be read, the
    run ends with the error of the failed call and does not reach
    [writeFileSync], whatever the entries that come before the unreadable
    one have added to the lists. *)
Theorem failed_read_stops_the_run (fs : FileSystem) :
  readmeFile fs = None \/
  projectDir fs = None \/
  (exists entries, projectDir fs = Some entries /\ ~ readable entries) ->
  updateReadme fs = Throw IoError.
Proof.
  intros H. unfold updateReadme, readdirSync.
  destruct (readmeFile fs) as [readmeContent|]; [|reflexivity].
  cbn [readFileSync bind].
  destruct (Z.eqb_spec (insertPosition readmeContent) (-1)) as [E|_].
  { pose proof (insertPosition_range readmeContent). lia. }
  destruct H as [H|[H|(entries & Hd & Hn)]]; [discriminate| |].
  - rewrite H. reflexivity.
  - rewrite Hd. cbn [bind].
    destruct (forEach entries
                (existingLinks readmeContent, existingSections readmeContent))
      as [st|e] eqn:Hf; cbn [bind].
    + exfalso. apply Hn. now apply forEach_succeeds_readable in Hf.
    + apply forEach_throws in Hf. now subst e.
Qed.

Lemma failed_read_stops_the_run_witness :
  updateReadme
    (project placeholder
       [dir (lit "javaScript") (ReadmeFile (lit "Hello"));
        dir (lit "nextJs") ReadmeUnreadable])
  = Throw IoError.
Proof.
  apply (failed_read_stops_the_run
           (project placeholder
              [dir (lit "javaScript") (ReadmeFile (lit "Hello"));
               dir (lit "nextJs") ReadmeUnreadable])).
  right. right.
  exists [dir (lit "javaScript") (ReadmeFile (lit "Hello"));
          dir (lit "nextJs") ReadmeUnreadable].
  split; [reflexivity|].
  intros H.
  apply (H (dir (lit "nextJs") ReadmeUnreadable)
           (or_intror (or_introl eq_refl)) eq_refl eq_refl).
Defined.

(** X2.  When the README does not contain the marker, the insertion
    index is 20: the text written is the first 20 characters of the
    README (the whole README when it is shorter), a line break, the
    links, a line break and the sections. *)
Theorem missing_marker_keeps_twenty
    (fs : FileSystem) (readmeContent : jsstring) (entries : list Dirent)
    (folderLinks readmeSections : list jsstring) :
  readmeFile fs = Some readmeContent -> projectDir fs = Some entries ->
  includes readmeContent placeholder = false ->
  forEach entries (existingLinks readmeContent, existingSections readmeContent)
  = Ok (folderLinks, readmeSections) ->
  updateReadme fs
  = Ok (writeFileSync fs
          (firstn 20 readmeContent ++ [LF] ++ join [LF] folderLinks
           ++ [LF] ++ join [LF] readmeSections)) /\
  (length readmeContent <= 20 -> firstn 20 readmeContent = readmeContent).
Proof.
  intros Hr Hd Hm Hf. split.
  - eapply missing_marker_run; eassumption.
  - apply firstn_all2.
Qed.

Lemma missing_marker_keeps_twenty_witness :
  updateReadme (project (lit "Notes") [dir (lit "javaScript") NoReadme])
  = Ok (project (lit "Notes" ++ [LF]
                 ++ link (lit "javaScript") (lit "javaScript") ++ [LF])
          [dir (lit "javaScript") NoReadme]).
Proof.
  destruct (missing_marker_keeps_twenty
              (project (lit "Notes") [dir (lit "javaScript") NoReadme])
              (lit "Notes") [dir (lit "javaScript") NoReadme]
              [link (lit "javaScript") (lit "javaScript")] []
              eq_refl eq_refl eq_refl eq_refl) as [H _].
  exact H.
Defined.

(** *** The loop over the entries *)

(** X3.  Entries of the project directory that are not directories
    (README.md itself, other files) have no effect: the loop, and so the
    run, give the same result on the directories alone. *)
Theorem files_are_ignored (readmeContent : jsstring) (entries : list Dirent) :
  (forall st, forEach entries st = forEach (filter isDirectory entries) st) /\
  bind (updateReadme (project readmeContent entries))
    (fun fs => Ok (readmeFile fs))
  = bind (updateReadme (project readmeContent (filter isDirectory entries)))
      (fun fs => Ok (readmeFile fs)).
Proof.
  split; [intros st; apply forEach_filter|].
  unfold updateReadme, readdirSync. cbn [project readmeFile projectDir readFileSync bind].
  destruct (insertPosition readmeContent =? -1)%Z; [reflexivity|].
  rewrite forEach_filter.
  destruct (forEach (filter isDirectory entries) _); reflexivity.
Qed.

(** X4.  What the loop does to the sections: the sections it starts
    from are kept, in order; each section added is the template filled
    with the name of a directory and its trimmed README.md, for a
    directory whose section was not recorded; at most one section is
    added per directory; afterwards the README.md of every directory is
    recorded. *)
Theorem sections_loop
    (entries : list Dirent)
    (folderLinks readmeSections folderLinks' readmeSections' : list jsstring) :
  forEach entries (folderLinks, readmeSections)
  = Ok (folderLinks', readmeSections') ->
  exists added,
    readmeSections' = readmeSections ++ added /\
    length added <= length (directories entries) /\
    (forall x, In x added ->
       exists e content,
         In e entries /\ isDirectory e = true /\ readme e = ReadmeFile content /\
         x = [LF] ++ lit "### " ++ name e ++ [LF] ++ lit "---" ++ [LF]
             ++ trim content ++ [LF] ++ lit "                    " /\
         recorded readmeSections (name e) (trim content) = false) /\
    (forall e content,
       In e entries -> isDirectory e = true -> readme e = ReadmeFile content ->
       recorded readmeSections' (name e) (trim content) = true).
Proof.
  intros H. destruct (forEach_sections _ _ _ H) as (added & E & Hadd & _).
  exists added. split; [exact E|]. split.
  - pose proof (forEach_added_length _ _ _ _ _ H) as Hl.
    rewrite E, length_app in Hl. lia.
  - split; [exact Hadd|]. eapply forEach_all_recorded; eassumption.
Qed.

Lemma sections_loop_witness :
  exists added,
    [readmeSection (lit "javaScript") (lit "Hello")] = [] ++ added /\
    length added <= length (directories
                              [dir (lit "javaScript") (ReadmeFile (lit " Hello "));
                               dir (lit "nextJs") NoReadme]).
Proof.
  destruct (sections_loop
              [dir (lit "javaScript") (ReadmeFile (lit " Hello "));
               dir (lit "nextJs") NoReadme]
              [] []
              [link (lit "javaScript") (lit "javaScript");
               link (lit "nextJs") (lit "nextJs")]
              [readmeSection (lit "javaScript") (lit "Hello")] eq_refl)
    as (added & E & Hl & _).
  exists added. split; assumption.
Defined.

(** X5.  The test made before a section is added looks for a text
    inside the sections collected: a README.md that has shrunk to the
    beginning of the content recorded for its directory adds nothing,
    whether that content was read back from the README or rendered by
    the template earlier in the run.  The section with the longer
    content stays. *)
Theorem shortened_readme_adds_nothing
    (readmeSections : list jsstring) (dirName content tail x : jsstring) :
  In x readmeSections ->
  x = sectionText dirName (trim content ++ tail) \/
  x = readmeSection dirName (trim content ++ tail) ->
  addSection readmeSections dirName (ReadmeFile content) = Ok readmeSections.
Proof.
  intros Hin Hx. cbn [addSection].
  replace (recorded readmeSections dirName (trim content)) with true;
    [reflexivity|].
  symmetry. unfold recorded, some. apply existsb_exists. exists x.
  split; [exact Hin|]. destruct Hx as [->| ->].
  - unfold sectionText.
    replace (lit "### " ++ dirName ++ [LF] ++ lit "---" ++ [LF]
             ++ trim content ++ tail)
      with ([] ++ (lit "### " ++ dirName ++ [LF] ++ lit "---" ++ [LF]
                   ++ trim content) ++ tail)
      by (cbn [app]; now rewrite <- !app_assoc).
    apply includes_app.
  - unfold readmeSection, sectionText.
    replace ([LF] ++ lit "### " ++ dirName ++ [LF] ++ lit "---" ++ [LF]
             ++ (trim content ++ tail) ++ [LF] ++ lit "                    ")
      with ([LF] ++ (lit "### " ++ dirName ++ [LF] ++ lit "---" ++ [LF]
                     ++ trim content)
            ++ (tail ++ [LF] ++ lit "                    "))
      by now rewrite <- !app_assoc.
    apply includes_app.
Qed.

Lemma shortened_readme_adds_nothing_witness :
  addSection [sectionText (lit "javaScript") (lit "Hello, world")]
    (lit "javaScript") (ReadmeFile (lit "Hello"))
  = Ok [sectionText (lit "javaScript") (lit "Hello, world")].
Proof.
  apply (shortened_readme_adds_nothing
           [sectionText (lit "javaScript") (lit "Hello, world")]
           (lit "javaScript") (lit "Hello") (lit ", world")
           (sectionText (lit "javaScript") (lit "Hello, world"))).
  - now left.
  - now left.
Defined.

(** X6.  The test made before a link is added looks for [./name/]
    anywhere in the links collected: a directory gets no link of its own
    when a link collected has its name as the directory of the [href],
    or at the end of a longer path there, or when the [href] or the title
    of a link contains [./name/]. *)
Theorem directory_already_mentioned
    (folderLinks : list jsstring) (folderName folderTitle dirName : jsstring) :
  In (link folderName folderTitle) folderLinks ->
  folderName = dirName \/
  (exists p, folderName = p ++ lit "./" ++ dirName) \/
  includes folderName (lit "./" ++ dirName ++ lit "/") = true \/
  includes folderTitle (lit "./" ++ dirName ++ lit "/") = true ->
  addLink folderLinks dirName = folderLinks.
Proof.
  intros Hin Hcase. unfold addLink.
  replace (linked folderLinks dirName) with true; [reflexivity|].
  symmetry. unfold linked, some. apply existsb_exists.
  exists (link folderName folderTitle). split; [exact Hin|].
  destruct Hcase as [->|[[p ->]|[H|H]]].
  - apply link_includes_dir.
  - unfold link.
    replace (lit "<a href=" ++ [QUOT] ++ lit "./" ++ (p ++ lit "./" ++ dirName)
             ++ lit "/" ++ [QUOT] ++ lit " style=" ++ [QUOT]
             ++ lit "font-weight: bold; margin-bottom:200px;" ++ [QUOT]
             ++ lit ">" ++ [GLYPH] ++ lit " " ++ folderTitle ++ lit "</a></br>")
      with ((lit "<a href=" ++ [QUOT] ++ lit "./" ++ p)
            ++ (lit "./" ++ dirName ++ lit "/")
            ++ ([QUOT] ++ lit " style=" ++ [QUOT]
                ++ lit "font-weight: bold; margin-bottom:200px;" ++ [QUOT]
                ++ lit ">" ++ [GLYPH] ++ lit " " ++ folderTitle ++ lit "</a></br>"))
      by now rewrite <- !app_assoc.
    apply includes_app.
  - unfold link.
    apply (includes_inside (lit "<a href=" ++ [QUOT] ++ lit "./") folderName
             (lit "/" ++ [QUOT] ++ lit " style=" ++ [QUOT]
              ++ lit "font-weight: bold; margin-bottom:200px;" ++ [QUOT]
              ++ lit ">" ++ [GLYPH] ++ lit " " ++ folderTitle ++ lit "</a></br>"))
      in H.
    etransitivity; [|exact H]. f_equal; rewrite <- ?app_assoc; reflexivity.
  - unfold link.
    apply (includes_inside
             (lit "<a href=" ++ [QUOT] ++ lit "./" ++ folderName ++ lit "/"
              ++ [QUOT] ++ lit " style=" ++ [QUOT]
              ++ lit "font-weight: bold; margin-bottom:200px;" ++ [QUOT]
              ++ lit ">" ++ [GLYPH] ++ lit " ") folderTitle (lit "</a></br>")) in H.
    etransitivity; [|exact H]. f_equal; rewrite <- ?app_assoc; reflexivity.
Qed.

Lemma directory_already_mentioned_witness :
  addLink [link (lit "javaScript") (lit "notes, see ./nextJs/ too")] (lit "nextJs")
  = [link (lit "javaScript") (lit "notes, see ./nextJs/ too")].
Proof.
  apply (directory_already_mentioned
           [link (lit "javaScript") (lit "notes, see ./nextJs/ too")]
           (lit "javaScript") (lit "notes, see ./nextJs/ too") (lit "nextJs")).
  - now left.
  - right. right. right. reflexivity.
Defined.

(* ================================================================== *)
(** ** Reading back what was written *)

Section ReadBackAll.

Lemma forallb_join (f : code_unit -> bool) (sep : jsstring) (l : list jsstring) :
  forallb f sep = true -> (forall x, In x l -> forallb f x = true) ->
  forallb f (join sep l) = true.
Proof.
  intros Hsep. induction l as [|x l IH]; intros H; [reflexivity|].
  destruct l as [|y l].
  - apply H. now left.
  - change (join sep (x :: y :: l)) with (x ++ sep ++ join sep (y :: l)).
    rewrite !forallb_app, Hsep, (H x (or_introl eq_refl)), IH; [reflexivity|].
    intros z Hz. apply H. now right.
Qed.

Lemma notHash_no_heading (s : jsstring) :
  forallb notHash s = true -> includes s (lit "###") = false.
Proof.
  induction s as [|c s IH]; intros H; [reflexivity|].
  cbn [forallb] in H. apply andb_true_iff in H as [Hc Hs].
  cbn [includes]. rewrite (IH Hs), orb_false_r.
  destruct (startsWith (lit "###") (c :: s)) eqn:E; [|reflexivity].
  apply startsWith_inv in E as [q E]. injection E as -> _. discriminate.
Qed.

(** No [###] in a text without [###] followed by a text without [#]. *)
Lemma includes_hashes_app (A B : jsstring) :
  includes A (lit "###") = false -> forallb notHash B = true ->
  includes (A ++ B) (lit "###") = false.
Proof.
  intros HA HB. induction A as [|c A IH].
  - now apply notHash_no_heading.
  - cbn [includes] in HA. apply orb_false_iff in HA as [Hc HA].
    cbn [app includes]. rewrite (IH HA), orb_false_r.
    destruct (startsWith (lit "###") (c :: A ++ B)) eqn:E; [exfalso | reflexivity].
    apply startsWith_inv in E as [q E].
    destruct A as [|a1 [|a2 A]]; cbn in E.
    + injection E as _ E. subst B. discriminate.
    + injection E as _ _ E. subst B. discriminate.
    + injection E as -> -> -> _. discriminate.
Qed.

(** A match starts with [###]. *)
Lemma sections_match_start (s : jsstring) (caps : captures) (len : nat) :
  matchHere existingSectionsRegex s = Some (caps, len) ->
  startsWith (lit "###") s = true.
Proof.
  intros H. apply sections_match_inv in H as (w & t & b & rest & -> & _).
  apply startsWith_app.
Qed.

(** No match starts in a line-ended text that holds no [###]. *)
Lemma sections_scan_skip (X T : jsstring) :
  includes (X ++ [LF]) (lit "###") = false ->
  execAll existingSectionsRegex ((X ++ [LF]) ++ T) 0
  = execAll existingSectionsRegex T 0.
Proof.
  induction X as [|c X IH]; intros H.
  - cbn [app]. apply execAll_nomatch.
    destruct (matchHere existingSectionsRegex (LF :: T)) as [[caps len]|] eqn:E;
      [exfalso | reflexivity].
    apply sections_match_start in E. discriminate.
  - cbn [app includes] in H. apply orb_false_iff in H as [Hc H].
    cbn [app]. rewrite execAll_nomatch; [now apply IH|].
    destruct (matchHere existingSectionsRegex (c :: (X ++ [LF]) ++ T))
      as [[caps len]|] eqn:E; [exfalso | reflexivity].
    apply sections_match_start in E.
    destruct X as [|x X].
    + cbn in E. rewrite andb_false_r in E. discriminate.
    + change (c :: ((x :: X) ++ [LF]) ++ T) with ((c :: (x :: X) ++ [LF]) ++ T) in E.
      rewrite startsWith_long in E
        by (change (length (lit "###")) with 3; cbn [length app];
            rewrite length_app; cbn [length]; lia).
      congruence.
Qed.

(** Links rendered from plain parts and joined by line breaks are all
    read back, in order, from a text in which nothing else looks like an
    anchor. *)
Lemma links_list_read_back (lks : list (jsstring * jsstring)) (A S : jsstring) :
  includes A (lit "<a") = false -> includes S (lit "<a") = false ->
  (forall p, In p lks -> plainLink p) ->
  existingLinks (A ++ join [LF] (map linkOf lks) ++ [LF] ++ S) = map linkOf lks.
Proof.
  revert A; induction lks as [|[n t] lks IH]; intros A HA HS Hl.
  - cbn [map join app]. apply existingLinks_none.
    now apply (includes_anchor_sep A S).
  - destruct (Hl (n, t) (or_introl eq_refl)) as (Hn & Hq & Ht & Hlt & Hs).
    cbn [fst snd] in *.
    assert (Hl' : forall p, In p lks -> plainLink p)
      by (intros p Hp; apply Hl; now right).
    assert (Hsp : spaces [SPACE]) by (split; [discriminate | reflexivity]).
    assert (E : A ++ join [LF] (map linkOf ((n, t) :: lks)) ++ [LF] ++ S
                = A ++ anchor [SPACE] n [SPACE] [SPACE] [SPACE] [SPACE] t
                  ++ (match lks with [] => [] | _ :: _ => [LF] end
                      ++ join [LF] (map linkOf lks) ++ [LF] ++ S)).
    { rewrite <- link_anchor. destruct lks as [|q lks]; cbn [map join].
      - reflexivity.
      - unfold linkOf at 1. cbn [fst snd]. now rewrite <- !app_assoc. }
    rewrite E, anchor_read_back by assumption.
    cbn [map]. f_equal. apply IH; auto. now destruct lks.
Qed.

(** Sections rendered from plain parts and joined by line breaks are
    the matches of the sections pattern, in order, after a line-ended text
    that holds no [###]. *)
Lemma sections_list_matches (secs : list (jsstring * jsstring)) (X : jsstring) :
  includes (X ++ [LF]) (lit "###") = false ->
  (forall p, In p secs -> plainSection p) ->
  execAll existingSectionsRegex ((X ++ [LF]) ++ join [LF] (map sectionOf secs)) 0
  = map (fun p => [fst p; snd p]) secs.
Proof.
  revert X; induction secs as [|[t c] secs IH]; intros X HX Hs;
    rewrite sections_scan_skip by exact HX; [reflexivity|].
  destruct (Hs (t, c) (or_introl eq_refl)) as (Ht & Hth & Htt & Hct & Hcn & Hcs).
  cbn [fst snd] in *.
  pose (R := match secs with
             | [] => []
             | _ :: _ => [LF] ++ join [LF] (map sectionOf secs)
             end).
  assert (E : join [LF] (map sectionOf ((t, c) :: secs))
              = lit "###" ++ [SPACE] ++ t ++ separator ++ c ++ R).
  { subst R. destruct secs as [|q secs]; cbn [map join];
      unfold sectionOf at 1, sectionText; cbn [fst snd].
    - now rewrite app_nil_r.
    - cbn [lit list_ascii_of_string map app]. now rewrite <- !app_assoc. }
  assert (HR : R = [] \/ exists z, R = nextHeading ++ z).
  { subst R. destruct secs as [|[t' c'] secs]; [now left | right].
    destruct secs; cbn [map join]; unfold sectionOf at 1, sectionText;
      cbn [fst snd]; eexists; reflexivity. }
  pose proof (@sections_match_block [SPACE] t c R ltac:(discriminate) eq_refl
                Ht (trim_fixed_stops Htt) Hth Hcn Hcs HR) as Hm.
  assert (HT : lit "###" ++ [SPACE] ++ t ++ separator ++ c ++ R <> [])
    by discriminate.
  rewrite E, (execAll_first _ HT Hm). cbn [map fst snd]. f_equal.
  replace (tl (lit "###" ++ [SPACE] ++ t ++ separator ++ c ++ R))
    with (tl (lit "###" ++ [SPACE] ++ t ++ separator ++ c) ++ R)
    by (cbn [lit list_ascii_of_string map app tl]; now rewrite <- !app_assoc).
  replace (length (lit "###" ++ [SPACE] ++ t ++ separator ++ c) - 1)
    with (length (tl (lit "###" ++ [SPACE] ++ t ++ separator ++ c)))
    by (cbn [lit list_ascii_of_string map app tl length]; lia).
  rewrite execAll_skip. subst R. destruct secs as [|q secs]; [reflexivity|].
  apply (IH []); [reflexivity|]. intros p Hp. apply Hs. now right.
Qed.

Lemma sections_list_read_back (secs : list (jsstring * jsstring)) (X : jsstring) :
  includes (X ++ [LF]) (lit "###") = false ->
  (forall p, In p secs -> plainSection p) ->
  existingSections ((X ++ [LF]) ++ join [LF] (map sectionOf secs))
  = map sectionOf secs.
Proof.
  intros HX Hs. unfold existingSections.
  rewrite sections_list_matches by assumption.
  rewrite map_map. apply map_ext_in. intros [t c] Hp.
  destruct (Hs _ Hp) as (_ & _ & Htt & Hct & _). cbn [fst snd] in *.
  cbn [group nth Nat.sub fst snd]. unfold sectionOf. cbn [fst snd].
  now rewrite Htt, Hct.
Qed.

(** No [<a] in sections whose parts hold none. *)
Lemma sections_no_anchor (secs : list (jsstring * jsstring)) :
  (forall p, In p secs ->
     includes (fst p) (lit "<a") = false /\ includes (snd p) (lit "<a") = false) ->
  includes (join [LF] (map sectionOf secs)) (lit "<a") = false.
Proof.
  assert (H1 : forall p,
             includes (fst p) (lit "<a") = false ->
             includes (snd p) (lit "<a") = false ->
             includes (sectionOf p) (lit "<a") = false).
  { intros [t c] Ht Hc. cbn [fst snd] in *.
    change (includes (sectionOf (t, c)) (lit "<a"))
      with (includes (t ++ LF :: (lit "---" ++ [LF] ++ c)) (lit "<a")).
    apply (includes_anchor_sep t (lit "---" ++ [LF] ++ c)); [exact Ht | exact Hc]. }
  induction secs as [|p secs IH]; intros H; [reflexivity|].
  destruct (H p (or_introl eq_refl)) as [Ht Hc].
  destruct secs as [|q secs]; [now apply H1|].
  change (join [LF] (map sectionOf (p :: q :: secs)))
    with (sectionOf p ++ LF :: join [LF] (map sectionOf (q :: secs))).
  apply (includes_anchor_sep (sectionOf p) (join [LF] (map sectionOf (q :: secs))));
    [now apply H1|].
  apply IH. intros r Hr. apply H. now right.
Qed.

Lemma link_no_hash (n t : jsstring) :
  forallb notHash n = true -> forallb notHash t = true ->
  forallb notHash (link n t) = true.
Proof.
  intros Hn Ht. unfold link. rewrite !forallb_app, Hn, Ht. reflexivity.
Qed.

(** A loop that finds every directory linked and recorded adds
    nothing. *)
Lemma forEach_nothing_added (entries : list Dirent)
    (links sections : list jsstring) :
  readable entries ->
  (forall d, In d (directories entries) -> linked links d = true) ->
  (forall e content, In e entries -> isDirectory e = true ->
     readme e = ReadmeFile content ->
     recorded sections (name e) (trim content) = true) ->
  forEach entries (links, sections) = Ok (links, sections).
Proof.
  induction entries as [|e entries IH]; intros Hr Hl Hs; [reflexivity|].
  assert (IH' : forEach entries (links, sections) = Ok (links, sections)).
  { apply IH.
    - intros e' He'. apply Hr. now right.
    - intros d Hd. apply Hl. unfold directories in *. cbn [filter].
      destruct (isDirectory e); [now right | exact Hd].
    - intros e' content He'. apply Hs. now right. }
  cbn [forEach]. unfold visit. destruct (isDirectory e) eqn:Ed; [|exact IH'].
  cbn [fst snd]. unfold addLink.
  rewrite Hl by (unfold directories; cbn [filter]; rewrite Ed; now left).
  cbn [negb]. destruct (readme e) as [|content|] eqn:Er.
  - exact IH'.
  - cbn [addSection]. rewrite (Hs e content (or_introl eq_refl) Ed Er).
    exact IH'.
  - exfalso. exact (Hr e (or_introl eq_refl) Ed Er).
Qed.

End ReadBackAll.

(** Both lists are read back from the layout that a run writes. *)
Lemma layout_read_back (A : jsstring) (lks secs : list (jsstring * jsstring)) :
  includes A (lit "<a") = false -> includes A (lit "###") = false ->
  (forall p, In p lks ->
     plainLink p /\ forallb notHash (fst p) = true /\
     forallb notHash (snd p) = true) ->
  (forall p, In p secs ->
     plainSection p /\ includes (fst p) (lit "<a") = false /\
     includes (snd p) (lit "<a") = false) ->
  existingLinks (A ++ [LF] ++ join [LF] (map linkOf lks) ++ [LF]
                 ++ join [LF] (map sectionOf secs)) = map linkOf lks /\
  existingSections (A ++ [LF] ++ join [LF] (map linkOf lks) ++ [LF]
                    ++ join [LF] (map sectionOf secs)) = map sectionOf secs.
Proof.
  intros HA1 HA2 Hl Hs. split.
  - replace (A ++ [LF] ++ join [LF] (map linkOf lks) ++ [LF]
             ++ join [LF] (map sectionOf secs))
      with ((A ++ [LF]) ++ join [LF] (map linkOf lks) ++ [LF]
            ++ join [LF] (map sectionOf secs))
      by now rewrite <- app_assoc.
    apply links_list_read_back.
    + now apply (includes_anchor_sep A []).
    + apply sections_no_anchor. intros p Hp. now apply Hs.
    + intros p Hp. now apply Hl.
  - replace (A ++ [LF] ++ join [LF] (map linkOf lks) ++ [LF]
             ++ join [LF] (map sectionOf secs))
      with (((A ++ [LF] ++ join [LF] (map linkOf lks)) ++ [LF])
            ++ join [LF] (map sectionOf secs))
      by now rewrite <- !app_assoc.
    apply sections_list_read_back.
    + rewrite <- !app_assoc. apply includes_hashes_app; [exact HA2|].
      rewrite !forallb_app, forallb_join; [reflexivity | reflexivity |].
      intros x Hx. apply in_map_iff in Hx as ([n t] & <- & Hp).
      destruct (Hl _ Hp) as (_ & Hn & Ht). now apply link_no_hash.
    + intros p Hp. now apply Hs.
Qed.

(** *** The marker *)

(** X7.  A run on a README that holds the marker never touches the text
    up to and including the first marker: the README written has its first
    marker at the same index, and the next run keeps the same text in
    front of its lists. *)
Theorem marker_stays (fs fs' : FileSystem) (readmeContent : jsstring) :
  readmeFile fs = Some readmeContent ->
  includes readmeContent placeholder = true ->
  updateReadme fs = Ok fs' ->
  exists readmeContent',
    readmeFile fs' = Some readmeContent' /\
    indexOf readmeContent' placeholder = indexOf readmeContent placeholder /\
    slice0 readmeContent' (insertPosition readmeContent')
    = slice0 readmeContent (insertPosition readmeContent) /\
    startsWith (slice0 readmeContent (insertPosition readmeContent))
      readmeContent' = true.
Proof.
  intros Hr Hm Hu.
  assert (Hf : exists entries l s,
             projectDir fs = Some entries /\
             forEach entries (existingLinks readmeContent,
                              existingSections readmeContent) = Ok (l, s)).
  { unfold updateReadme, readdirSync in Hu. rewrite Hr in Hu.
    cbn [readFileSync bind] in Hu.
    destruct (insertPosition readmeContent =? -1)%Z; [discriminate|].
    destruct (projectDir fs) as [entries|]; [|discriminate].
    cbn [bind] in Hu.
    destruct (forEach entries _) as [[l s]|] eqn:Hf; [|discriminate].
    exists entries, l, s. split; [reflexivity | exact Hf]. }
  destruct Hf as (entries & l & s & Hd & Hf).
  destruct (@written_layout fs _ _ _ _ Hr Hd Hm Hf) as (pre & post & E & Ei & Hw).
  rewrite Hw in Hu. injection Hu as <-.
  exists (pre ++ placeholder ++ [LF] ++ join [LF] l ++ [LF] ++ join [LF] s).
  split; [reflexivity|].
  assert (Ei' : indexOf (pre ++ placeholder ++ [LF] ++ join [LF] l ++ [LF]
                         ++ join [LF] s) placeholder = Z.of_nat (length pre)).
  { apply (marker_position pre post). now rewrite <- E. }
  split; [now rewrite Ei', Ei|].
  rewrite (slice_at_marker pre _ Ei').
  rewrite E in Ei |- *. rewrite (slice_at_marker pre post Ei).
  split; [reflexivity|].
  rewrite (app_assoc pre placeholder). apply startsWith_app.
Qed.

Lemma marker_stays_witness :
  exists readmeContent',
    readmeFile
      (project (lit "# Notes" ++ [LF] ++ placeholder ++ [LF]
                ++ link (lit "javaScript") (lit "javaScript") ++ [LF])
         [dir (lit "javaScript") NoReadme])
    = Some readmeContent' /\
    indexOf readmeContent' placeholder = 8%Z.
Proof.
  destruct (marker_stays
              (project (lit "# Notes" ++ [LF] ++ placeholder)
                 [dir (lit "javaScript") NoReadme])
              (project (lit "# Notes" ++ [LF] ++ placeholder ++ [LF]
                        ++ link (lit "javaScript") (lit "javaScript") ++ [LF])
                 [dir (lit "javaScript") NoReadme])
              (lit "# Notes" ++ [LF] ++ placeholder)
              eq_refl eq_refl eq_refl)
    as (c & Hc & Hi & _).
  exists c. split; [exact Hc | exact Hi].
Defined.

(** *** The two patterns *)

(** X8.  Every match of either pattern is at least one character long
    and no longer than the text searched, so that [lastIndex] moves
    forward at each turn of the two [while] loops; a match has its two
    groups, and the first one is never empty. *)
Theorem matches_advance (s : jsstring) (caps : captures) (len : nat) :
  matchHere existingLinksRegex s = Some (caps, len) \/
  matchHere existingSectionsRegex s = Some (caps, len) ->
  1 <= len <= length s /\ length caps = 2 /\ group 1 caps <> [].
Proof.
  intros [H|H].
  - pose proof H as H1. apply linksRegex_nonempty in H1.
    apply links_match_inv in H
      as (w1 & n & w2 & w3 & w4 & w5 & t & rest & -> & _ & _ & _ & _ & _
          & Hn & _ & _ & _ & -> & ->).
    rewrite length_app. split; [lia|]. split; [reflexivity | exact Hn].
  - pose proof H as H1. apply sectionsRegex_nonempty in H1.
    apply sections_match_inv in H
      as (w & t & b & rest & _ & _ & _ & Ht & _ & -> & -> & _).
    split; [lia|]. split; [reflexivity | exact Ht].
Qed.

Lemma matches_advance_witness :
  1 <= 88 <= length (link (lit "javaScript") (lit "notes") ++ [LF]) /\
  length [lit "javaScript"; lit "notes"] = 2 /\
  group 1 [lit "javaScript"; lit "notes"] <> [].
Proof.
  apply (matches_advance (link (lit "javaScript") (lit "notes") ++ [LF])
           [lit "javaScript"; lit "notes"] 88).
  left. reflexivity.
Defined.

(** X9.  Every section collected by the second loop comes from a block
    of the README: [###], white space, a heading without [#], the
    separator line and a body that stops at the first place where the end
    of the text or the line break before a [###] follows; the section is
    the heading and the body, both trimmed, under the template of the
    loop. *)
Theorem sections_read_back_sound (readmeContent x : jsstring) :
  In x (existingSections readmeContent) ->
  exists a w t b rest,
    readmeContent = a ++ lit "###" ++ w ++ t ++ separator ++ b ++ rest /\
    spaces w /\ t <> [] /\ forallb notHash t = true /\
    atBoundary rest = true /\
    (forall b1 b2, b = b1 ++ b2 -> b2 <> [] -> atBoundary (b2 ++ rest) = false) /\
    x = sectionText (trim t) (trim b).
Proof.
  intros H. unfold existingSections in H.
  apply in_map_iff in H as (m & <- & Hm).
  apply execAll_sound in Hm as (a & s & len & -> & Hm).
  apply sections_match_inv in Hm
    as (w & t & b & rest & -> & Hw & Hws & Ht & Hth & -> & _ & Hb & Hmin).
  exists a, w, t, b, rest.
  split; [reflexivity|]. split; [now split|]. split; [exact Ht|].
  split; [exact Hth|]. split; [exact Hb|]. split; [exact Hmin | reflexivity].
Qed.

Lemma sections_read_back_sound_witness :
  exists a w t b rest,
    sampleReadme = a ++ lit "###" ++ w ++ t ++ separator ++ b ++ rest /\
    sectionText (lit "Table of Contents")
      (placeholder ++ [LF] ++ lit "- <a href=" ++ [QUOT] ++ lit "./javaScript/"
       ++ [QUOT] ++ lit " >javaScript</a></br>")
    = sectionText (trim t) (trim b).
Proof.
  destruct (sections_read_back_sound sampleReadme
              (sectionText (lit "Table of Contents")
                 (placeholder ++ [LF] ++ lit "- <a href=" ++ [QUOT]
                  ++ lit "./javaScript/" ++ [QUOT] ++ lit " >javaScript</a></br>"))
              (or_introl eq_refl))
    as (a & w & t & b & rest & E & _ & _ & _ & _ & _ & Ex).
  exists a, w, t, b, rest. split; [exact E | exact Ex].
Defined.


(** *** The script's own format *)

(** X10.  Reading back is the inverse of writing.  From a text made of
    a part without [<a] and without [###], a line break, links joined by
    line breaks, a line break and sections joined by line breaks, which is
    the layout a run writes, the two loops recover exactly the links and
    exactly the sections, in order.  The links are rendered from a
    directory name without double quote or [#] and a title without [<] or
    [#] that does not start with white space; the sections from a trimmed
    heading without [#] or [<a] and a trimmed body without heading line,
    separator line or [<a]. *)
Theorem rendered_lists_read_back
    (A : jsstring) (lks secs : list (jsstring * jsstring)) :
  includes A (lit "<a") = false -> includes A (lit "###") = false ->
  (forall p, In p lks ->
     plainLink p /\ forallb notHash (fst p) = true /\
     forallb notHash (snd p) = true) ->
  (forall p, In p secs ->
     plainSection p /\ includes (fst p) (lit "<a") = false /\
     includes (snd p) (lit "<a") = false) ->
  existingLinks (A ++ [LF] ++ join [LF] (map linkOf lks) ++ [LF]
                 ++ join [LF] (map sectionOf secs)) = map linkOf lks /\
  existingSections (A ++ [LF] ++ join [LF] (map linkOf lks) ++ [LF]
                    ++ join [LF] (map sectionOf secs)) = map sectionOf secs.
Proof. apply layout_read_back. Qed.

Lemma rendered_lists_read_back_witness :
  existingLinks
    (placeholder ++ [LF]
     ++ join [LF] (map linkOf [(lit "javaScript", lit "JavaScript notes");
                               (lit "nextJs", lit "nextJs")])
     ++ [LF]
     ++ join [LF] (map sectionOf [(lit "javaScript", lit "Hello");
                                  (lit "nextJs", lit "Pages" ++ [LF] ++ lit "and routes")]))
  = map linkOf [(lit "javaScript", lit "JavaScript notes");
                (lit "nextJs", lit "nextJs")] /\
  existingSections
    (placeholder ++ [LF]
     ++ join [LF] (map linkOf [(lit "javaScript", lit "JavaScript notes");
                               (lit "nextJs", lit "nextJs")])
     ++ [LF]
     ++ join [LF] (map sectionOf [(lit "javaScript", lit "Hello");
                                  (lit "nextJs", lit "Pages" ++ [LF] ++ lit "and routes")]))
  = map sectionOf [(lit "javaScript", lit "Hello");
                   (lit "nextJs", lit "Pages" ++ [LF] ++ lit "and routes")].
Proof.
  apply (rendered_lists_read_back placeholder
           [(lit "javaScript", lit "JavaScript notes"); (lit "nextJs", lit "nextJs")]
           [(lit "javaScript", lit "Hello");
            (lit "nextJs", lit "Pages" ++ [LF] ++ lit "and routes")]).
  - reflexivity.
  - reflexivity.
  - intros p [<-|[<-|[]]]; (split; [|split; reflexivity]);
      (split; [discriminate|]); (split; [reflexivity|]);
      (split; [discriminate|]); split; reflexivity.
  - intros p [<-|[<-|[]]]; (split; [|split; reflexivity]);
      (split; [discriminate|]); repeat (split; [reflexivity|]); reflexivity.
Defined.

(** X11.  A README in the script's own format is left as it is.  Let
    the README be a text that ends with its first marker and holds neither
    [<a] nor [###], then a line break, links joined by line breaks, a line
    break and sections joined by line breaks, the links and the sections
    being rendered from plain parts as above.  When every directory is
    mentioned by one of the links and the trimmed README.md of every
    directory is found in one of the sections, the run writes the text it
    has read. *)
Theorem canonical_readme_unchanged
    (pre : jsstring) (lks secs : list (jsstring * jsstring))
    (entries : list Dirent) (readmeContent : jsstring) :
  readmeContent = pre ++ placeholder ++ [LF] ++ join [LF] (map linkOf lks)
                  ++ [LF] ++ join [LF] (map sectionOf secs) ->
  indexOf readmeContent placeholder = Z.of_nat (length pre) ->
  includes (pre ++ placeholder) (lit "<a") = false ->
  includes (pre ++ placeholder) (lit "###") = false ->
  (forall p, In p lks ->
     plainLink p /\ forallb notHash (fst p) = true /\
     forallb notHash (snd p) = true) ->
  (forall p, In p secs ->
     plainSection p /\ includes (fst p) (lit "<a") = false /\
     includes (snd p) (lit "<a") = false) ->
  readable entries ->
  (forall d, In d (directories entries) -> linked (map linkOf lks) d = true) ->
  (forall e content, In e entries -> isDirectory e = true ->
     readme e = ReadmeFile content ->
     recorded (map sectionOf secs) (name e) (trim content) = true) ->
  updateReadme (project readmeContent entries) = Ok (project readmeContent entries).
Proof.
  intros -> Hi HA1 HA2 Hl Hs Hr Hlk Hrec.
  destruct (layout_read_back (pre ++ placeholder) lks secs HA1 HA2 Hl Hs)
    as [El Es].
  rewrite <- app_assoc in El, Es.
  erewrite updateReadme_ok; [|reflexivity|reflexivity|].
  2:{ rewrite El, Es. now apply forEach_nothing_added. }
  unfold updatedContent. rewrite (slice_at_marker pre _ Hi).
  unfold writeFileSync, project. cbn [projectDir]. now rewrite <- app_assoc.
Qed.

Lemma canonical_readme_unchanged_witness :
  updateReadme
    (project
       (lit "# Notes" ++ [LF] ++ placeholder ++ [LF]
        ++ link (lit "javaScript") (lit "javaScript") ++ [LF]
        ++ sectionText (lit "javaScript") (lit "Hello"))
       [dir (lit "javaScript") (ReadmeFile (lit "Hello" ++ [LF]));
        {| name := lit "package.json"; isDirectory := false; readme := NoReadme |}])
  = Ok (project
          (lit "# Notes" ++ [LF] ++ placeholder ++ [LF]
           ++ link (lit "javaScript") (lit "javaScript") ++ [LF]
           ++ sectionText (lit "javaScript") (lit "Hello"))
          [dir (lit "javaScript") (ReadmeFile (lit "Hello" ++ [LF]));
           {| name := lit "package.json"; isDirectory := false; readme := NoReadme |}]).
Proof.
  apply (canonical_readme_unchanged (lit "# Notes" ++ [LF])
           [(lit "javaScript", lit "javaScript")]
           [(lit "javaScript", lit "Hello")]).
  - reflexivity.
  - reflexivity.
  - reflexivity.
  - reflexivity.
  - intros p [<-|[]]; (split; [|split; reflexivity]);
      (split; [discriminate|]); (split; [reflexivity|]);
      (split; [discriminate|]); split; reflexivity.
  - intros p [<-|[]]; (split; [|split; reflexivity]);
      (split; [discriminate|]); repeat (split; [reflexivity|]); reflexivity.
  - intros e [<-|[<-|[]]] Hd; discriminate.
  - intros d [<-|[]]. reflexivity.
  - intros e content [<-|[<-|[]]] Hd Hc; [|discriminate].
    injection Hc as <-. reflexivity.
Defined.

(* ================================================================== *)
(** ** Reading back a section of any content *)

Section TemplateReadBack.

Lemma dropWhile_all (w : jsstring) :
  forallb isSpace w = true -> dropWhile isSpace w = [].
Proof.
  induction w as [|c w IH]; [reflexivity|]. cbn [forallb dropWhile].
  intros H. apply andb_true_iff in H as [Hc Hw]. rewrite Hc. now apply IH.
Qed.

Lemma dropWhile_app_all (w s : jsstring) :
  forallb isSpace w = true -> dropWhile isSpace (w ++ s) = dropWhile isSpace s.
Proof.
  induction w as [|c w IH]; [reflexivity|]. cbn [forallb dropWhile app].
  intros H. apply andb_true_iff in H as [Hc Hw]. rewrite Hc. now apply IH.
Qed.

Lemma dropWhile_snoc (u : jsstring) (x : code_unit) :
  isSpace x = false -> dropWhile isSpace (u ++ [x]) = dropWhile isSpace u ++ [x].
Proof.
  intros Hx. induction u as [|a u IH]; cbn [app dropWhile].
  - now rewrite Hx.
  - destruct (isSpace a); [exact IH | reflexivity].
Qed.

Lemma dropWhile_idem (s : jsstring) :
  dropWhile isSpace (dropWhile isSpace s) = dropWhile isSpace s.
Proof.
  induction s as [|c s IH]; [reflexivity|]. cbn [dropWhile].
  destruct (isSpace c) eqn:E; [exact IH|]. cbn [dropWhile]. now rewrite E.
Qed.

Lemma forallb_rev_spaces (w : jsstring) :
  forallb isSpace w = true -> forallb isSpace (rev w) = true.
Proof.
  intros H. apply forallb_forall. intros x Hx. apply in_rev in Hx.
  revert x Hx. now apply forallb_forall.
Qed.

(** [trim] has nothing left to do on its own result. *)
Lemma trim_idem (s : jsstring) : trim (trim s) = trim s.
Proof.
  unfold trim, trimStart. destruct (dropWhile isSpace s) as [|x r] eqn:E;
    [reflexivity|].
  assert (Hx : isSpace x = false).
  { pose proof (dropWhile_idem s) as H. rewrite E in H. cbn [dropWhile] in H.
    destruct (isSpace x) eqn:Ex; [|reflexivity].
    exfalso. clear E. revert H. clear. revert x.
    induction r as [|y r IH]; intros x H; [discriminate|].
    cbn [dropWhile] in H. destruct (isSpace y).
    - pose proof (f_equal (@length _) H) as Hl. cbn [length] in Hl.
      assert (Hle : forall l, length (dropWhile isSpace l) <= length l).
      { clear. induction l as [|a l IHl]; cbn; [lia|].
        destruct (isSpace a); cbn; lia. }
      specialize (Hle r). lia.
    - pose proof (f_equal (@length _) H) as Hl. cbn [length] in Hl. lia. }
  assert (Et : trimEnd (x :: r) = x :: trimEnd r).
  { unfold trimEnd. cbn [rev]. rewrite dropWhile_snoc by exact Hx.
    rewrite rev_app_distr. reflexivity. }
  rewrite Et. cbn [dropWhile]. rewrite Hx, <- Et.
  unfold trimEnd. rewrite rev_involutive, dropWhile_idem. reflexivity.
Qed.

(** White space after the text does not count. *)
Lemma trim_spaces_after (s w : jsstring) :
  forallb isSpace w = true -> trim (s ++ w) = trim s.
Proof.
  intros Hw. unfold trim, trimStart.
  assert (E : dropWhile isSpace (s ++ w)
              = match dropWhile isSpace s with
                | [] => []
                | _ :: _ => dropWhile isSpace s ++ w
                end).
  { induction s as [|a s IH]; cbn [app dropWhile].
    - now apply dropWhile_all.
    - destruct (isSpace a); [exact IH | reflexivity]. }
  rewrite E. destruct (dropWhile isSpace s) as [|x r]; [reflexivity|].
  unfold trimEnd. rewrite rev_app_distr, dropWhile_app_all; [reflexivity|].
  now apply forallb_rev_spaces.
Qed.

Lemma trim_templateBody (content : jsstring) (last : bool) :
  trim (templateBody (trim content) last) = trim content.
Proof.
  unfold templateBody. rewrite trim_spaces_after; [apply trim_idem|].
  now destruct last.
Qed.

(** No heading line starts in the white space that the template puts
    after the content. *)
Lemma heading_not_in_tail (c w : jsstring) :
  includes c nextHeading = false -> forallb notHash w = true ->
  includes (c ++ LF :: w) nextHeading = false.
Proof.
  intros Hc Hw.
  assert (Hw' : includes w nextHeading = false).
  { clear Hc. induction w as [|x w IH]; [reflexivity|].
    cbn [forallb] in Hw. apply andb_true_iff in Hw as [Hx Hw].
    cbn [includes]. rewrite (IH Hw), orb_false_r.
    destruct (startsWith nextHeading (x :: w)) eqn:E; [|reflexivity].
    apply startsWith_inv in E as [q E]. cbn in E. injection E as -> E.
    subst w. discriminate. }
  induction c as [|x c IH].
  - cbn [app includes]. rewrite Hw', orb_false_r.
    destruct (startsWith nextHeading (LF :: w)) eqn:E; [|reflexivity].
    apply startsWith_inv in E as [q E]. cbn in E. injection E as E.
    subst w. discriminate.
  - cbn [includes] in Hc. apply orb_false_iff in Hc as [Hx Hc].
    cbn [app includes]. rewrite (IH Hc), orb_false_r.
    destruct (startsWith nextHeading (x :: c ++ LF :: w)) eqn:E; [|reflexivity].
    apply startsWith_inv in E as [q E].
    destruct c as [|c1 [|c2 [|c3 c]]]; cbn in E; try discriminate.
    injection E as -> -> -> -> _. discriminate.
Qed.

(** No separator line ends in that white space. *)
Lemma separator_not_in_tail (u w : jsstring) :
  includes (u ++ [LF]) separator = false ->
  forallb (fun c => negb (c =? 45)%N) w = true ->
  includes (u ++ LF :: w) separator = false.
Proof.
  intros Hu Hw.
  assert (Hw' : includes w separator = false).
  { clear Hu. induction w as [|x w IH]; [reflexivity|].
    cbn [forallb] in Hw. apply andb_true_iff in Hw as [Hx Hw].
    cbn [includes]. rewrite (IH Hw), orb_false_r.
    destruct (startsWith separator (x :: w)) eqn:E; [|reflexivity].
    apply startsWith_inv in E as [q E]. cbn in E. injection E as -> E.
    subst w. discriminate. }
  induction u as [|x u IH].
  - cbn [app includes]. rewrite Hw', orb_false_r.
    destruct (startsWith separator (LF :: w)) eqn:E; [|reflexivity].
    apply startsWith_inv in E as [q E]. cbn in E. injection E as E.
    subst w. discriminate.
  - cbn [app includes] in Hu. apply orb_false_iff in Hu as [Hx Hu].
    cbn [app includes]. rewrite (IH Hu), orb_false_r.
    destruct (startsWith separator (x :: u ++ LF :: w)) eqn:E; [|reflexivity].
    apply startsWith_inv in E as [q E].
    destruct u as [|c1 [|c2 [|c3 [|c4 u]]]]; cbn in E; try discriminate.
    + injection E as -> -> -> -> _. discriminate.
    + injection E as -> -> -> -> -> _. discriminate.
Qed.

Lemma templateBody_heading (c : jsstring) (last : bool) :
  includes c nextHeading = false ->
  includes (templateBody c last) nextHeading = false.
Proof.
  intros H.
  change (templateBody c last)
    with (c ++ LF :: (lit "                    " ++ if last then [] else [LF])).
  apply heading_not_in_tail; [exact H | now destruct last].
Qed.

Lemma templateBody_separator (c : jsstring) (last : bool) :
  includes ([LF] ++ c ++ [LF]) separator = false ->
  includes ([LF] ++ templateBody c last ++ [LF]) separator = false.
Proof.
  intros H.
  replace ([LF] ++ templateBody c last ++ [LF])
    with (([LF] ++ c)
          ++ LF :: (lit "                    "
                    ++ (if last then [] else [LF]) ++ [LF]))
    by (unfold templateBody; destruct last; cbn [app];
        rewrite <- ?app_assoc; reflexivity).
  apply separator_not_in_tail; [now rewrite <- app_assoc | now destruct last].
Qed.

Lemma readmeSection_template (dirName content : jsstring) :
  readmeSection dirName content
  = [LF] ++ lit "###" ++ [SPACE] ++ dirName ++ separator
    ++ templateBody content true.
Proof.
  unfold readmeSection, templateBody. cbn [app]. now rewrite app_nil_r.
Qed.

(** Where a section written by the template sits in the joined
    sections. *)
Lemma joined_template_split (l1 l2 : list jsstring) (dirName content : jsstring) :
  (forall x, In x l2 -> exists z, x = nextHeading ++ z) ->
  exists X0 last rest,
    [LF] ++ join [LF] (l1 ++ readmeSection dirName content :: l2)
    = (X0 ++ [LF; LF])
      ++ lit "###" ++ [SPACE] ++ dirName ++ separator
      ++ templateBody content last ++ rest /\
    (rest = [] \/ exists z, rest = nextHeading ++ z).
Proof.
  intros Hl2. rewrite join_app_cons, readmeSection_template.
  exists (match l1 with [] => [] | _ :: _ => [LF] ++ join [LF] l1 end).
  destruct l2 as [|x l2].
  - exists true, []. split; [|now left].
    destruct l1; cbn [app]; rewrite <- ?app_assoc; cbn [app];
      rewrite ?app_nil_r; reflexivity.
  - destruct (Hl2 x (or_introl eq_refl)) as [z ->].
    exists false,
      (nextHeading ++ z ++ match l2 with [] => [] | _ => [LF] ++ join [LF] l2 end).
    split; [|eauto].
    unfold templateBody.
    destruct l1, l2; cbn [join app]; rewrite <- ?app_assoc; cbn [app];
      rewrite ?app_nil_r; rewrite <- ?app_assoc; reflexivity.
Qed.

(** A section written by the template is read back by the next run,
    whatever its content and the rest of the document. *)
Lemma template_read_back (P : jsstring) (l1 l2 : list jsstring)
    (dirName content : jsstring) :
  dirName <> [] -> forallb notHash dirName = true -> trim dirName = dirName ->
  includes (trim content) nextHeading = false ->
  includes ([LF] ++ trim content ++ [LF]) separator = false ->
  (forall x, In x l2 -> exists z, x = nextHeading ++ z) ->
  In (sectionText dirName (trim content))
     (existingSections
        (P ++ [LF]
         ++ join [LF] (l1 ++ readmeSection dirName (trim content) :: l2))).
Proof.
  intros Hne Hh Ht Hcn Hcs Hl2.
  destruct (joined_template_split l1 l2 dirName (trim content) Hl2)
    as (X0 & last & rest & E & Hrest).
  rewrite E.
  replace (P ++ (X0 ++ [LF; LF]) ++ lit "###" ++ [SPACE] ++ dirName ++ separator
           ++ templateBody (trim content) last ++ rest)
    with (((P ++ X0) ++ [LF; LF]) ++ lit "###" ++ [SPACE] ++ dirName ++ separator
          ++ templateBody (trim content) last ++ rest)
    by now rewrite <- !app_assoc.
  unfold existingSections.
  destruct (@sections_scan_reach ((P ++ X0) ++ [LF; LF])
              (lit "###" ++ [SPACE] ++ dirName ++ separator
               ++ templateBody (trim content) last ++ rest) 0)
    as [pre Hpre].
  { apply lineStart_after. discriminate. }
  { reflexivity. }
  { lia. }
  rewrite Hpre.
  assert (Hm : matchHere existingSectionsRegex
                 (lit "###" ++ [SPACE] ++ dirName ++ separator
                  ++ templateBody (trim content) last ++ rest)
               = Some ([dirName; templateBody (trim content) last],
                       length (lit "###" ++ [SPACE] ++ dirName ++ separator
                               ++ templateBody (trim content) last))).
  { apply sections_match_block; auto.
    - discriminate.
    - now apply trim_fixed_stops.
    - now apply templateBody_heading.
    - now apply templateBody_separator. }
  assert (HT : lit "###" ++ [SPACE] ++ dirName ++ separator
               ++ templateBody (trim content) last ++ rest <> [])
    by discriminate.
  rewrite (execAll_first _ HT Hm).
  rewrite map_app. apply in_or_app. right. left.
  cbn [group nth Nat.sub]. now rewrite Ht, trim_templateBody.
Qed.

End TemplateReadBack.

(** *** Sections across runs *)

(** X12.  A section is written once, whatever the content of the
    README.md.  Take a directory whose name is not empty, contains no [#]
    and neither starts nor ends with white space, and a README.md whose
    trimmed text holds no heading line and no separator line.  If a run
    appends the section of the directory, the next run reads it back from
    the README written, as the heading and the trimmed text under the
    template of the second loop, and appends nothing for the directory as
    long as its README.md is the same. *)
Theorem section_written_once
    (readmeContent : jsstring) (entries : list Dirent)
    (dirName content : jsstring) (folderLinks readmeSections : list jsstring) :
  dirName <> [] -> forallb notHash dirName = true -> trim dirName = dirName ->
  includes (trim content) nextHeading = false ->
  includes ([LF] ++ trim content ++ [LF]) separator = false ->
  forEach entries (existingLinks readmeContent, existingSections readmeContent)
  = Ok (folderLinks, readmeSections) ->
  In (readmeSection dirName (trim content)) readmeSections ->
  In (sectionText dirName (trim content))
     (existingSections (updatedContent readmeContent folderLinks readmeSections)) /\
  forall more,
    addSection
      (existingSections (updatedContent readmeContent folderLinks readmeSections)
       ++ more)
      dirName (ReadmeFile content)
    = Ok (existingSections (updatedContent readmeContent folderLinks readmeSections)
          ++ more).
Proof.
  intros Hne Hh Ht Hcn Hcs Hf Hin.
  assert (Hback : In (sectionText dirName (trim content))
                    (existingSections
                       (updatedContent readmeContent folderLinks readmeSections))).
  { destruct (forEach_sections _ _ _ Hf) as (added & E & Hadd & _).
    destruct (in_split _ _ Hin) as (l1 & l2 & El).
    assert (Hl2 : forall x, In x l2 -> In x added).
    { rewrite E in El. apply app_eq_app in El as [l [[E1 E2]|[E1 E2]]].
      - destruct l as [|x l].
        + cbn in E2. subst added. intros x Hx. now right.
        + exfalso. cbn in E2. injection E2 as <- _.
          assert (Hx : In (readmeSection dirName (trim content))
                         (existingSections readmeContent))
            by (rewrite E1; apply in_or_app; right; now left).
          unfold existingSections in Hx. apply in_map_iff in Hx as (m & Hx & _).
          discriminate.
      - intros x Hx. rewrite E2. apply in_or_app. right. now right. }
    unfold updatedContent. rewrite El.
    replace (slice0 readmeContent (insertPosition readmeContent) ++ [LF]
             ++ join [LF] folderLinks ++ [LF]
             ++ join [LF] (l1 ++ readmeSection dirName (trim content) :: l2))
      with ((slice0 readmeContent (insertPosition readmeContent) ++ [LF]
             ++ join [LF] folderLinks) ++ [LF]
            ++ join [LF] (l1 ++ readmeSection dirName (trim content) :: l2))
      by now rewrite <- !app_assoc.
    apply template_read_back; auto.
    intros x Hx. destruct (Hadd x (Hl2 x Hx)) as (e & c & _ & _ & _ & -> & _).
    now exists (lit " " ++ name e ++ [LF] ++ lit "---" ++ [LF] ++ trim c
                ++ [LF] ++ lit "                    "). }
  split; [exact Hback|].
  intros more. cbn [addSection]. rewrite recorded_app.
  replace (recorded (existingSections
                       (updatedContent readmeContent folderLinks readmeSections))
             dirName (trim content)) with true; [reflexivity|].
  symmetry. unfold recorded, some. apply existsb_exists.
  exists (sectionText dirName (trim content)).
  split; [exact Hback | apply includes_refl].
Qed.

Lemma section_written_once_witness :
  In (sectionText (lit "nextJs") (lit "Pages" ++ [LF] ++ lit "and routes"))
     (existingSections
        (updatedContent placeholder
           [link (lit "nextJs") (lit "nextJs")]
           [readmeSection (lit "nextJs") (lit "Pages" ++ [LF] ++ lit "and routes")])).
Proof.
  apply (section_written_once placeholder
           [dir (lit "nextJs")
              (ReadmeFile (lit " Pages" ++ [LF] ++ lit "and routes" ++ [LF]))]
           (lit "nextJs") (lit " Pages" ++ [LF] ++ lit "and routes" ++ [LF])
           [link (lit "nextJs") (lit "nextJs")]
           [readmeSection (lit "nextJs") (lit "Pages" ++ [LF] ++ lit "and routes")]).
  - discriminate.
  - reflexivity.
  - reflexivity.
  - reflexivity.
  - reflexivity.
  - reflexivity.
  - left. reflexivity.
Defined.
